(** * Execution orchestration and response demultiplexing of PythonLab

    A shallow embedding of the run handlers of
    [frontend/src/components/PythonLab.tsx] ([handleRun],
    [runNotebookCell], [runAllCells]) and of [runCode] from the API
    service module, together with the part of the JavaScript runtime
    they rely on (strings of UTF-16 code units, [trim], [includes],
    and the regular expressions the component uses). *)

From Stdlib Require Import String Ascii DecimalString NArith Arith Lia Bool List
  Permutation.
Import ListNotations.

(** ** JavaScript strings *)

Module JS.

(** A JavaScript string is a sequence of UTF-16 code units. *)
Definition codeUnit := N.
Definition jsstring := list codeUnit.

(** Source text of a string literal; the escape [\n] stands for a line
    feed, as in the component's literals. *)
Fixpoint unescape (cs : list ascii) : jsstring :=
  match cs with
  | [] => []
  | c :: rest =>
      match c, rest with
      | "\"%char, "n"%char :: rest' => 10%N :: unescape rest'
      | _, _ => N_of_ascii c :: unescape rest
      end
  end.

Definition lit (s : string) : jsstring := unescape (list_ascii_of_string s).

(** ECMAScript LineTerminator: LF, CR, LS, PS. *)
Definition isLineTerminator (c : codeUnit) : bool :=
  ((c =? 10) || (c =? 13) || (c =? 0x2028) || (c =? 0x2029))%N.

(** ECMAScript WhiteSpace: TAB, VT, FF, SP, NBSP, ZWNBSP and category Zs. *)
Definition isWhiteSpace (c : codeUnit) : bool :=
  ((c =? 9) || (c =? 11) || (c =? 12) || (c =? 32) || (c =? 160)
   || (c =? 0x1680) || ((0x2000 <=? c) && (c <=? 0x200A))
   || (c =? 0x202F) || (c =? 0x205F) || (c =? 0x3000) || (c =? 0xFEFF))%N.

Definition isTrimmable (c : codeUnit) : bool :=
  isWhiteSpace c || isLineTerminator c.

Fixpoint trimStart (s : jsstring) : jsstring :=
  match s with
  | [] => []
  | c :: s' => if isTrimmable c then trimStart s' else s
  end.

Definition trimEnd (s : jsstring) : jsstring := rev (trimStart (rev s)).

(** [String.prototype.trim] *)
Definition trim (s : jsstring) : jsstring := trimEnd (trimStart s).

(** [stripPrefix w s] is [Some s'] exactly when [s = w ++ s']. *)
Fixpoint stripPrefix (w s : jsstring) : option jsstring :=
  match w with
  | [] => Some s
  | a :: w' =>
      match s with
      | [] => None
      | c :: s' => if (c =? a)%N then stripPrefix w' s' else None
      end
  end.

Definition startsWith (w s : jsstring) : bool :=
  match stripPrefix w s with Some _ => true | None => false end.

(** [String.prototype.includes] *)
Fixpoint includes (s w : jsstring) : bool :=
  startsWith w s ||
  match s with
  | [] => false
  | _ :: s' => includes s' w
  end.

(** Strict equality [===] of two strings. *)
Fixpoint eqb (a b : jsstring) : bool :=
  match a, b with
  | [], [] => true
  | x :: a', y :: b' => (x =? y)%N && eqb a' b'
  | _, _ => false
  end.

(** Truthiness of a string: the empty string is falsy. *)
Definition truthy (s : jsstring) : bool :=
  match s with [] => false | _ => true end.

(** [a || b] on strings. *)
Definition orElse (a b : jsstring) : jsstring := if truthy a then a else b.

(** Decimal rendering of a non-negative integer, as in a template
    literal. *)
Definition ofNat (n : nat) : jsstring :=
  lit (NilZero.string_of_uint (Nat.to_uint n)).

End JS.

Import JS.

(** ** Regular expressions

    A backtracking matcher in continuation-passing style, after the
    ECMAScript pattern semantics, for the fragment the component uses:
    literal characters, the atoms [.], [\d], [\s], [\S] and bracketed
    classes of two of these, the quantifiers [*], [+], [*?], [+?] applied to
    an atom, capture groups and concatenation. *)

Module RegExp.

Inductive atom :=
  | Dot                       (* .  *)
  | Esc_d                     (* \d *)
  | Esc_s                     (* \s *)
  | Esc_S                     (* \S *)
  | Either (a b : atom).      (* [ab] *)

Inductive greed := Greedy | Lazy.
Inductive bound := Star | Plus.

Inductive pattern :=
  | Chars (w : jsstring)
  | Atom (a : atom)
  | Quant (a : atom) (b : bound) (g : greed)
  | Group (p : pattern)
  | Seq (p q : pattern).

Record regexp := RE { source : pattern; global : bool; dotAll : bool }.

Fixpoint accepts (s_flag : bool) (a : atom) (c : codeUnit) : bool :=
  match a with
  | Dot => s_flag || negb (isLineTerminator c)
  | Esc_d => ((48 <=? c) && (c <=? 57))%N
  | Esc_s => isTrimmable c
  | Esc_S => negb (isTrimmable c)
  | Either a1 a2 => accepts s_flag a1 c || accepts s_flag a2 c
  end.

Definition captures := list jsstring.

(** State after a successful match: the unconsumed input and the
    captured groups. *)
Definition outcome := (jsstring * captures)%type.

(** Greedy repetition of a one-character test: consume as many
    characters as possible, giving one back at a time when the
    continuation fails. *)
Fixpoint repeatGreedy (ok : codeUnit -> bool) (s : jsstring)
    (k : jsstring -> option outcome) : option outcome :=
  match s with
  | c :: s' =>
      if ok c then
        match repeatGreedy ok s' k with
        | Some r => Some r
        | None => k s
        end
      else k s
  | [] => k []
  end.

(** Lazy repetition: try the continuation first, consume one more
    character only when it fails. *)
Fixpoint repeatLazy (ok : codeUnit -> bool) (s : jsstring)
    (k : jsstring -> option outcome) : option outcome :=
  match k s with
  | Some r => Some r
  | None =>
      match s with
      | c :: s' => if ok c then repeatLazy ok s' k else None
      | [] => None
      end
  end.

Definition repeatAtom (g : greed) :=
  match g with Greedy => repeatGreedy | Lazy => repeatLazy end.

Fixpoint matcher (s_flag : bool) (p : pattern) (s : jsstring) (caps : captures)
    (k : jsstring -> captures -> option outcome) : option outcome :=
  match p with
  | Chars w =>
      match stripPrefix w s with
      | Some s' => k s' caps
      | None => None
      end
  | Atom a =>
      match s with
      | c :: s' => if accepts s_flag a c then k s' caps else None
      | [] => None
      end
  | Quant a Star g => repeatAtom g (accepts s_flag a) s (fun s' => k s' caps)
  | Quant a Plus g =>
      match s with
      | c :: s' =>
          if accepts s_flag a c
          then repeatAtom g (accepts s_flag a) s' (fun s' => k s' caps)
          else None
      | [] => None
      end
  | Group p' =>
      matcher s_flag p' s caps
        (fun s' caps' => k s' (caps' ++ [firstn (length s - length s') s]))
  | Seq p1 p2 =>
      matcher s_flag p1 s caps (fun s' caps' => matcher s_flag p2 s' caps' k)
  end.

(** One attempt at the current position: the matched text and the
    captures. *)
Definition matchHere (r : regexp) (s : jsstring) : option (jsstring * captures) :=
  match matcher (dotAll r) (source r) s [] (fun s' caps => Some (s', caps)) with
  | Some (rest, caps) => Some (firstn (length s - length rest) s, caps)
  | None => None
  end.

(** [RegExp.prototype.exec] from the start of [s] (the search of a
    non-global [String.prototype.match]): the leftmost position at which
    an attempt succeeds. *)
Fixpoint exec (r : regexp) (s : jsstring) : option (jsstring * captures) :=
  match matchHere r s with
  | Some m => Some m
  | None =>
      match s with
      | [] => None
      | _ :: s' => exec r s'
      end
  end.

(** All non-overlapping matches, left to right.  [skip] counts the code
    units still covered by the previous match; an empty match advances
    by one code unit. *)
Fixpoint scan (r : regexp) (s : jsstring) (skip : nat) : list jsstring :=
  match skip with
  | S n =>
      match s with
      | [] => []
      | _ :: s' => scan r s' n
      end
  | O =>
      match matchHere r s with
      | Some (m, _) =>
          m :: match s with
               | [] => []
               | _ :: s' => scan r s' (pred (length m))
               end
      | None =>
          match s with
          | [] => []
          | _ :: s' => scan r s' 0
          end
      end
  end.

(** [String.prototype.match].  With the [g] flag the result is the array
    of all matched substrings; without it, the array of the first match
    followed by its captured groups.  [None] is [null]. *)
Definition String_match (s : jsstring) (r : regexp) : option (list jsstring) :=
  if global r then
    match scan r s 0 with
    | [] => None
    | ms => Some ms
    end
  else
    match exec r s with
    | Some (m, caps) => Some (m :: caps)
    | None => None
    end.

(** [String.prototype.replace] with a global expression and the empty
    replacement: every matched span is dropped.  [erase] walks the
    string as [scan] does. *)
Fixpoint erase (r : regexp) (s : jsstring) (skip : nat) : jsstring :=
  match skip with
  | S n =>
      match s with
      | [] => []
      | _ :: s' => erase r s' n
      end
  | O =>
      match matchHere r s with
      | Some (m, _) =>
          match s with
          | [] => []
          | c :: s' =>
              match length m with
              | O => c :: erase r s' 0
              | S n => erase r s' n
              end
          end
      | None =>
          match s with
          | [] => []
          | c :: s' => c :: erase r s' 0
          end
      end
  end.

Definition String_replace_empty (s : jsstring) (r : regexp) : jsstring :=
  erase r s 0.

End RegExp.

Import RegExp.

(** ** The expressions of the component *)

(** [/input\(/g] *)
Definition inputRe : regexp :=
  RE (Chars (lit "input(")) true false.

(** [/__GRAPH_(\d+)__(.+?)__GRAPH_END__/gs] *)
Definition graphRe : regexp :=
  RE (Seq (Chars (lit "__GRAPH_"))
       (Seq (Group (Quant Esc_d Plus Greedy))
         (Seq (Chars (lit "__"))
           (Seq (Group (Quant Dot Plus Lazy))
                (Chars (lit "__GRAPH_END__"))))))
     true true.

(** [/__GRAPH_\d+__(.+?)__GRAPH_END__/] *)
Definition base64Re : regexp :=
  RE (Seq (Chars (lit "__GRAPH_"))
       (Seq (Quant Esc_d Plus Greedy)
         (Seq (Chars (lit "__"))
           (Seq (Group (Quant Dot Plus Lazy))
                (Chars (lit "__GRAPH_END__"))))))
     false false.

(** [/__GRAPHS_START__[\s\S]*?__GRAPHS_END__/g] *)
Definition graphsBlockRe : regexp :=
  RE (Seq (Chars (lit "__GRAPHS_START__"))
       (Seq (Quant (Either Esc_s Esc_S) Star Lazy)
            (Chars (lit "__GRAPHS_END__"))))
     true false.

(** ** The API service: [runCode] *)

Record CodeExecutionResponse := {
  success : bool;
  stdout : jsstring;
  stderr : jsstring
  (* [execution_time], a number the component never reads, is left out *)
}.

(** Body of [POST /run]: [{ code, stdin, notebook_id: notebookId }]; an
    argument that is not passed is [undefined] and is absent from the
    JSON body. *)
Record Request := {
  code : jsstring;
  stdin : option jsstring;
  notebook_id : option jsstring
}.

(** The fields of a rejection that the handlers inspect: [error.code],
    [error.message] and [error.response?.data?.detail]. *)
Record JsError := {
  err_code : option jsstring;
  message : option jsstring;
  response_data_detail : option jsstring
}.

(** How the promise returned by [runCode] settles. *)
Inductive Settled :=
  | Resolved (result : CodeExecutionResponse)
  | Rejected (error : JsError).

(** ** Component state *)

Inductive CellType := code_cell | markdown_cell.

Module NotebookCell.
Record t := {
  id : jsstring;
  type : CellType;
  content : jsstring;
  output : option jsstring;
  isExecuting : option bool;
  isEditing : option bool
}.

(** [{ ...c, output }] *)
Definition with_output (c : t) (o : jsstring) : t :=
  {| id := id c; type := type c; content := content c;
     output := Some o; isExecuting := isExecuting c; isEditing := isEditing c |}.

(** [{ ...c, isExecuting, output }] *)
Definition with_isExecuting_output (c : t) (e : bool) (o : jsstring) : t :=
  {| id := id c; type := type c; content := content c;
     output := Some o; isExecuting := Some e; isEditing := isEditing c |}.
End NotebookCell.

Record File := { name : jsstring; file_content : jsstring }.

(** A reading of [performance.now()]. *)
Definition timestamp := N.

(** The [useState] values of the component that the run handlers read
    or write.  [executionTime] keeps the two clock readings it is
    computed from. *)
Record State := {
  output : jsstring;
  isExecuting : bool;
  userInput : jsstring;
  waitingForInput : bool;
  executionTime : timestamp * timestamp;
  memoryUsed : jsstring;
  notebookCells : list NotebookCell.t;
  notebookId : jsstring;
  files : list File;
  activeFileIndex : nat;
  graphs : list jsstring;
  currentGraphIndex : nat
}.

(** The state setters.  There is none for [notebookId]: the component
    destructures [const [notebookId] = useState(...)] only. *)
Inductive Setter :=
  | setOutput (v : jsstring)
  | setIsExecuting (v : bool)
  | setUserInput (v : jsstring)
  | setWaitingForInput (v : bool)
  | setExecutionTime (startTime endTime : timestamp)
  | setMemoryUsed (v : jsstring)
  | setNotebookCells (v : list NotebookCell.t)
  | setGraphs (v : list jsstring)
  | setCurrentGraphIndex (v : nat).

Definition applySetter (u : Setter) (st : State) : State :=
  let mk o e i w t m c g x :=
    {| output := o; isExecuting := e; userInput := i; waitingForInput := w;
       executionTime := t; memoryUsed := m; notebookCells := c;
       notebookId := notebookId st; files := files st;
       activeFileIndex := activeFileIndex st; graphs := g;
       currentGraphIndex := x |} in
  let o := output st in let e := isExecuting st in let i := userInput st in
  let w := waitingForInput st in let t := executionTime st in
  let m := memoryUsed st in let c := notebookCells st in
  let g := graphs st in let x := currentGraphIndex st in
  match u with
  | setOutput v => mk v e i w t m c g x
  | setIsExecuting v => mk o v i w t m c g x
  | setUserInput v => mk o e v w t m c g x
  | setWaitingForInput v => mk o e i v t m c g x
  | setExecutionTime t0 t1 => mk o e i w (t0, t1) m c g x
  | setMemoryUsed v => mk o e i w t v c g x
  | setNotebookCells v => mk o e i w t m v g x
  | setGraphs v => mk o e i w t m c v x
  | setCurrentGraphIndex v => mk o e i w t m c g v
  end.

(** ** Handlers as trees of interactions

    A handler is a finite tree of interactions with its surroundings:
    setter calls, clock and random draws, the awaited [runCode] promise,
    the blocking [prompt] dialog and the awaited timer. *)

Inductive Proc :=
  | Return
  | Call (u : Setter) (k : Proc)
  | PerformanceNow (k : timestamp -> Proc)
  | MathRandomKB (k : nat -> Proc)     (* Math.floor(Math.random() * 500 + 100) *)
  | AwaitRunCode (req : Request) (k : Settled -> Proc)
  | WindowPrompt (msg : jsstring) (k : option jsstring -> Proc)
  | AwaitTimeout (ms : nat) (k : Proc)
  | ConsoleError (k : Proc).

(** Sequential composition: [q] runs when [p] has returned. *)
Fixpoint seq (p q : Proc) : Proc :=
  match p with
  | Return => q
  | Call u k => Call u (seq k q)
  | PerformanceNow k => PerformanceNow (fun t => seq (k t) q)
  | MathRandomKB k => MathRandomKB (fun n => seq (k n) q)
  | AwaitRunCode req k => AwaitRunCode req (fun o => seq (k o) q)
  | WindowPrompt msg k => WindowPrompt msg (fun a => seq (k a) q)
  | AwaitTimeout ms k => AwaitTimeout ms (seq k q)
  | ConsoleError k => ConsoleError (seq k q)
  end.

Declare Scope proc_scope.
Delimit Scope proc_scope with proc.
Bind Scope proc_scope with Proc.
Notation "p ;; q" := (seq p q) (at level 61, right associativity) : proc_scope.
Local Open Scope proc_scope.

Definition call (u : Setter) : Proc := Call u Return.

(** [runCode(code, stdin, notebookId)] *)
Definition runCode (c : jsstring) (i : option jsstring) (n : option jsstring)
    (k : Settled -> Proc) : Proc :=
  AwaitRunCode {| code := c; stdin := i; notebook_id := n |} k.

(** ** [handleRun]: the editor surface *)

(** Number of matches of a global expression: [m ? m.length : 0]. *)
Definition matchCount (m : option (list jsstring)) : nat :=
  match m with Some l => length l | None => 0 end.

(** [files[activeFileIndex]?.content || ''] *)
Definition currentCodeOf (st : State) : jsstring :=
  match nth_error (files st) (activeFileIndex st) with
  | Some f => orElse (file_content f) (lit "")
  | None => lit ""
  end.

(** The [forEach] over [graphMatches]: the first group of the inner
    expression is pushed for every match on which it succeeds. *)
Definition extractGraphs (graphMatches : list jsstring) : list jsstring :=
  fold_left
    (fun extractedGraphs match_ =>
       match String_match match_ base64Re with
       | Some base64Match => extractedGraphs ++ [nth 1 base64Match []]
       | None => extractedGraphs
       end)
    graphMatches [].

(** [formattedOutput.replace(/__GRAPHS_START__[\s\S]*?__GRAPHS_END__/g, '').trim()] *)
Definition removeGraphData (formattedOutput : jsstring) : jsstring :=
  trim (String_replace_empty formattedOutput graphsBlockRe).

(** The branch [if (result.success)] of the [try] block. *)
Definition handleRun_success (result : CodeExecutionResponse) : Proc :=
  let formattedOutput := orElse (stdout result) (lit "Success (no output)") in
  let graphMatches := String_match formattedOutput graphRe in
  match graphMatches with
  | Some graphMatches =>
      let extractedGraphs := extractGraphs graphMatches in
      call (setGraphs extractedGraphs) ;;
      call (setCurrentGraphIndex 0) ;;
      let formattedOutput := removeGraphData formattedOutput in
      call (setOutput formattedOutput)
  | None =>
      call (setGraphs []) ;;
      call (setOutput formattedOutput)
  end.

(** [error.code === 'ECONNABORTED' || error.message?.includes('timeout')] *)
Definition isTimeout (error : JsError) : bool :=
  match err_code error with
  | Some c => eqb c (lit "ECONNABORTED")
  | None => false
  end
  ||
  match message error with
  | Some m => includes m (lit "timeout")
  | None => false
  end.

(** Truthiness of an optional string property. *)
Definition present (v : option jsstring) : bool :=
  match v with Some s => truthy s | None => false end.

Definition valueOf (v : option jsstring) : jsstring :=
  match v with Some s => s | None => lit "undefined" end.

Definition handleRun_timeoutMsg : jsstring :=
  lit "Execution timeout: Code took longer than " ++ ofNat (N.to_nat (125000 / 1000))
  ++ lit " seconds.\nPlease optimize your code or reduce the workload.".

(** [errorMsg] as computed by the [catch] block. *)
Definition handleRun_errorMsg (error : JsError) : jsstring :=
  if isTimeout error then handleRun_timeoutMsg
  else if present (response_data_detail error) then valueOf (response_data_detail error)
  else if present (message error) then valueOf (message error)
  else lit "Unknown error occurred".

Definition handleRun_catch (error : JsError) : Proc :=
  let errorMsg := handleRun_errorMsg error in
  call (setOutput (lit "Error:\n" ++ errorMsg)) ;;
  call (setGraphs []) ;;
  ConsoleError Return.

Definition handleRun_finally : Proc :=
  call (setIsExecuting false) ;;
  call (setWaitingForInput false).

(** The message shown while the surface waits for input.  It starts
    with U+23F3. *)
Definition waitingMessage (inputCount : nat) : jsstring :=
  let plural := if 1 <? inputCount then lit "s" else lit "" in
  [0x23F3%N] ++ lit " Your code needs " ++ ofNat inputCount ++ lit " input"
  ++ plural
  ++ lit ".\nEnter them below (one per line, or space-separated):\n".

(** What follows [await runCode(...)] in [handleRun]: the rest of the
    [try] block when the promise resolves, the [catch] block when it
    rejects, and the [finally] block in both cases. *)
Definition handleRun_settled (startTime : timestamp) (settled : Settled) : Proc :=
  match settled with
  | Resolved result =>
      PerformanceNow (fun endTime =>
      call (setExecutionTime startTime endTime) ;;
      MathRandomKB (fun kb =>
      call (setMemoryUsed (ofNat kb ++ lit " KB")) ;;
      (if success result
       then handleRun_success result
       else call (setOutput (lit "Error:\n" ++ stderr result))) ;;
      call (setUserInput (lit ""))))
  | Rejected error => handleRun_catch error
  end ;;
  handleRun_finally.

(** [handleRun] closes over the state values of the render it was
    created in; [st] is that snapshot. *)
Definition handleRun (st : State) : Proc :=
  if isExecuting st then Return else
  call (setGraphs []) ;;
  call (setCurrentGraphIndex 0) ;;
  let currentCode := currentCodeOf st in
  let inputMatches := String_match currentCode inputRe in
  let inputCount := matchCount inputMatches in
  if (0 <? inputCount) && negb (truthy (trim (userInput st))) then
    call (setWaitingForInput true) ;;
    call (setOutput (waitingMessage inputCount))
  else
    call (setIsExecuting true) ;;
    call (setWaitingForInput false) ;;
    call (setOutput (lit "Executing...\n")) ;;
    PerformanceNow (fun startTime =>
    runCode currentCode (Some (userInput st)) None (handleRun_settled startTime)).

(** ** [runNotebookCell] and [runAllCells]: the notebook surface *)

Definition updateCell (cells : list NotebookCell.t) (id : jsstring)
    (f : NotebookCell.t -> NotebookCell.t) : list NotebookCell.t :=
  map (fun c => if eqb (NotebookCell.id c) id then f c else c) cells.

Definition promptMessage (inputCount : nat) : jsstring :=
  lit "This cell requires " ++ ofNat inputCount ++ lit " input value"
  ++ (if 1 <? inputCount then lit "s" else lit "") ++ lit ".\n"
  ++ lit "Enter them separated by spaces or newlines:".

(** [result.success ? result.stdout : `ERROR:\n${result.stderr}`] *)
Definition cellOutputOf (result : CodeExecutionResponse) : jsstring :=
  if success result then stdout result else lit "ERROR:\n" ++ stderr result.

(** [errorMsg] of the [catch] block of the branch that prompted. *)
Definition runNotebookCell_errorMsg (error : JsError) : jsstring :=
  let errorMsg :=
    if present (message error) then valueOf (message error)
    else lit "Unknown error" in
  if isTimeout error
  then lit "Execution timeout - code took too long to execute"
  else errorMsg.

(** What follows [await runCode(...)] in the branch that prompted for
    input: the rest of its [try] block or its [catch] block. *)
Definition runNotebookCell_settled_prompted (notebookCells : list NotebookCell.t)
    (id : jsstring) (settled : Settled) : Proc :=
  match settled with
  | Resolved result =>
      call (setNotebookCells (updateCell notebookCells id (fun c =>
        NotebookCell.with_isExecuting_output c false (cellOutputOf result))))
  | Rejected error =>
      let errorMsg := runNotebookCell_errorMsg error in
      call (setNotebookCells (updateCell notebookCells id (fun c =>
        NotebookCell.with_isExecuting_output c false (lit "ERROR:\n" ++ errorMsg))))
  end.

(** The same for the branch without input. *)
Definition runNotebookCell_settled (notebookCells : list NotebookCell.t)
    (id : jsstring) (settled : Settled) : Proc :=
  match settled with
  | Resolved result =>
      call (setNotebookCells (updateCell notebookCells id (fun c =>
        NotebookCell.with_isExecuting_output c false (cellOutputOf result))))
  | Rejected error =>
      call (setNotebookCells (updateCell notebookCells id (fun c =>
        NotebookCell.with_isExecuting_output c false
          (lit "ERROR:\n" ++ valueOf (message error)))))
  end.

(** [runNotebookCell] closes over [notebookCells] and [notebookId] of
    the render it was created in; [st] is that snapshot, also after the
    [await]. *)
Definition runNotebookCell (st : State) (id : jsstring) : Proc :=
  let notebookCells := notebookCells st in
  match find (fun c => eqb (NotebookCell.id c) id) notebookCells with
  | None => Return
  | Some cell =>
      match NotebookCell.type cell with
      | markdown_cell => Return
      | code_cell =>
          let inputMatches := String_match (NotebookCell.content cell) inputRe in
          let inputCount := matchCount inputMatches in
          if 0 <? inputCount then
            WindowPrompt (promptMessage inputCount) (fun inputPrompt =>
              match inputPrompt with
              | None =>
                  call (setNotebookCells (updateCell notebookCells id (fun c =>
                    NotebookCell.with_output c
                      (lit "Execution cancelled - input required"))))
              | Some inputPrompt =>
                  call (setNotebookCells (updateCell notebookCells id (fun c =>
                    NotebookCell.with_isExecuting_output c true (lit "Running...")))) ;;
                  runCode (NotebookCell.content cell) (Some inputPrompt)
                          (Some (notebookId st))
                          (runNotebookCell_settled_prompted notebookCells id)
              end)
          else
            call (setNotebookCells (updateCell notebookCells id (fun c =>
              NotebookCell.with_isExecuting_output c true (lit "Running...")))) ;;
            runCode (NotebookCell.content cell) (Some (lit ""))
                    (Some (notebookId st))
                    (runNotebookCell_settled notebookCells id)
      end
  end.

(** The [for ... of] loop of [runAllCells] over the cells of the
    snapshot. *)
Fixpoint runAllCells_loop (st : State) (cells : list NotebookCell.t) : Proc :=
  match cells with
  | [] => Return
  | cell :: rest =>
      match NotebookCell.type cell with
      | code_cell =>
          runNotebookCell st (NotebookCell.id cell) ;;
          AwaitTimeout 300 Return
      | markdown_cell => Return
      end ;;
      runAllCells_loop st rest
  end.

Definition runAllCells (st : State) : Proc :=
  runAllCells_loop st (notebookCells st).

(** ** Running a handler against its surroundings *)

Inductive Event :=
  | EvSet (u : Setter)
  | EvNow (t : timestamp)
  | EvRandom (kb : nat)
  | EvRequest (req : Request)
  | EvSettled (o : Settled)
  | EvPrompt (msg : jsstring) (answer : option jsstring)
  | EvTimeout (ms : nat)
  | EvConsoleError.

(** The surroundings answer every interaction, knowing what has
    happened so far. *)
Record World := {
  clock : list Event -> timestamp;
  random : list Event -> nat;
  service : list Event -> Request -> Settled;
  user : list Event -> jsstring -> option jsstring
}.

(** [run w p h]: the events of [p], in order, when it starts after the
    history [h].  A request is followed by the settlement the handler
    awaits before it goes on. *)
Fixpoint run (w : World) (p : Proc) (h : list Event) : list Event :=
  match p with
  | Return => []
  | Call u k => EvSet u :: run w k (h ++ [EvSet u])
  | PerformanceNow k =>
      let t := clock w h in EvNow t :: run w (k t) (h ++ [EvNow t])
  | MathRandomKB k =>
      let n := random w h in EvRandom n :: run w (k n) (h ++ [EvRandom n])
  | AwaitRunCode req k =>
      let o := service w h req in
      EvRequest req :: EvSettled o
        :: run w (k o) (h ++ [EvRequest req; EvSettled o])
  | WindowPrompt msg k =>
      let a := user w h msg in
      EvPrompt msg a :: run w (k a) (h ++ [EvPrompt msg a])
  | AwaitTimeout ms k => EvTimeout ms :: run w k (h ++ [EvTimeout ms])
  | ConsoleError k => EvConsoleError :: run w k (h ++ [EvConsoleError])
  end.

(** The state after the setter calls of a trace. *)
Fixpoint replay (tr : list Event) (st : State) : State :=
  match tr with
  | [] => st
  | EvSet u :: tr' => replay tr' (applySetter u st)
  | _ :: tr' => replay tr' st
  end.

(** The requests of a trace, in dispatch order. *)
Fixpoint requests (tr : list Event) : list Request :=
  match tr with
  | [] => []
  | EvRequest req :: tr' => req :: requests tr'
  | _ :: tr' => requests tr'
  end.

(** ** The response demultiplexer

    What the success branch of [handleRun] displays for the text
    [formattedOutput]: the displayed text and the artifact list. *)

Definition demultiplex (formattedOutput : jsstring) : jsstring * list jsstring :=
  match String_match formattedOutput graphRe with
  | Some graphMatches => (removeGraphData formattedOutput, extractGraphs graphMatches)
  | None => (formattedOutput, [])
  end.

(** ** Vocabulary of the statements *)

(** The words a pattern matches. *)
Fixpoint denotes (s_flag : bool) (p : pattern) (w : jsstring) : Prop :=
  match p with
  | Chars w' => w = w'
  | Atom a => exists c, w = [c] /\ accepts s_flag a c = true
  | Quant a Star _ => Forall (fun c => accepts s_flag a c = true) w
  | Quant a Plus _ => w <> [] /\ Forall (fun c => accepts s_flag a c = true) w
  | Group p' => denotes s_flag p' w
  | Seq p1 p2 => exists w1 w2, w = w1 ++ w2 /\ denotes s_flag p1 w1 /\ denotes s_flag p2 w2
  end.

Definition isDigit (c : codeUnit) : bool := accepts false Esc_d c.

(** The sentinel wrapper [__GRAPH_<ordinal>__<payload>__GRAPH_END__]. *)
Definition wrapper (ordinal payload : jsstring) : jsstring :=
  lit "__GRAPH_" ++ ordinal ++ lit "__" ++ payload ++ lit "__GRAPH_END__".

(** A non-empty run of decimal digits. *)
Definition isOrdinal (ordinal : jsstring) : bool :=
  truthy ordinal && forallb isDigit ordinal.

(** A well-formed wrapper occurs somewhere in [t]. *)
Definition hasWrapper (t : jsstring) : Prop :=
  exists pre ordinal payload post,
    t = pre ++ wrapper ordinal payload ++ post
    /\ isOrdinal ordinal = true /\ payload <> [].


(** The tail [__(.+?)__GRAPH_END__] shared by the two wrapper
    expressions. *)
Definition wrapperTail : pattern :=
  Seq (Chars (lit "__"))
    (Seq (Group (Quant Dot Plus Lazy)) (Chars (lit "__GRAPH_END__"))).

Definition isCode (c : NotebookCell.t) : bool :=
  match NotebookCell.type c with code_cell => true | markdown_cell => false end.

(** The request a run of [cell] sends with the input text [input]. *)
Definition cellRequest (st : State) (cell : NotebookCell.t) (input : jsstring)
    : Request :=
  {| code := NotebookCell.content cell; stdin := Some input;
     notebook_id := Some (notebookId st) |}.

(** The timer waits of a trace. *)
Fixpoint delays (tr : list Event) : list nat :=
  match tr with
  | [] => []
  | EvTimeout ms :: tr' => ms :: delays tr'
  | _ :: tr' => delays tr'
  end.

(** What the sequencer does for one code cell: either one request for
    the cell, settled before anything else is sent, or, when the cell
    asks for input and the prompt is cancelled, no request; then the
    settling delay. *)
Definition attempt (st : State) (cell : NotebookCell.t) (block : list Event)
    : Prop :=
  exists body,
    block = body ++ [EvTimeout 300] /\ delays body = [] /\
    ((exists before input o after,
        body = before ++ [EvRequest (cellRequest st cell input); EvSettled o] ++ after
        /\ requests before = [] /\ requests after = [])
     \/
     (requests body = []
      /\ includes (NotebookCell.content cell) (lit "input(") = true
      /\ exists msg, In (EvPrompt msg None) body)).

(** The cell found under [id], as [notebookCells.find(c => c.id === id)]. *)
Definition findCell (cells : list NotebookCell.t) (id : jsstring)
    : option NotebookCell.t :=
  find (fun c => eqb (NotebookCell.id c) id) cells.

(** ** Concrete states and surroundings *)

(** The [useState] initial values; the double quote is code unit 34. *)
Definition initialCells : list NotebookCell.t :=
  [ {| NotebookCell.id := lit "1"; NotebookCell.type := markdown_cell;
       NotebookCell.content :=
         lit "# Welcome to Notebook Mode\n\nCreate and run code cells!";
       NotebookCell.output := None; NotebookCell.isExecuting := None;
       NotebookCell.isEditing := Some false |};
    {| NotebookCell.id := lit "2"; NotebookCell.type := code_cell;
       NotebookCell.content :=
         lit "print(" ++ [34%N] ++ lit "Hello from Notebook!" ++ [34%N]
         ++ lit ")\nprint(" ++ [34%N] ++ lit "Run me!" ++ [34%N] ++ lit ")";
       NotebookCell.output := Some (lit ""); NotebookCell.isExecuting := None;
       NotebookCell.isEditing := None |} ].

Definition initialState (notebookId : jsstring) : State :=
  {| output := lit ""; isExecuting := false; userInput := lit "";
     waitingForInput := false; executionTime := (0%N, 0%N);
     memoryUsed := lit "0 KB"; notebookCells := initialCells;
     notebookId := notebookId;
     files := [ {| name := lit "main.py";
                   file_content :=
                     lit "# Python Lab\n# Write your Python code here\n\nprint("
                     ++ [34%N] ++ lit "Welcome to Python Lab!" ++ [34%N]
                     ++ lit ")\n" |} ];
     activeFileIndex := 0; graphs := []; currentGraphIndex := 0 |}.

(** The initial state after the user has typed [text] into the file. *)
Definition editing (text : jsstring) : State :=
  let st := initialState (lit "notebook_1700000000000_k3j9x2abc") in
  {| output := output st; isExecuting := isExecuting st;
     userInput := userInput st; waitingForInput := waitingForInput st;
     executionTime := executionTime st; memoryUsed := memoryUsed st;
     notebookCells := notebookCells st; notebookId := notebookId st;
     files := [ {| name := lit "main.py"; file_content := text |} ];
     activeFileIndex := 0; graphs := graphs st;
     currentGraphIndex := currentGraphIndex st |}.

(** The initial state with the notebook replaced by [cells]. *)
Definition notebook (cells : list NotebookCell.t) : State :=
  applySetter (setNotebookCells cells)
        (initialState (lit "notebook_1700000000000_k3j9x2abc")).

Definition codeCell (id content : jsstring) (running : option bool)
    : NotebookCell.t :=
  {| NotebookCell.id := id; NotebookCell.type := code_cell;
     NotebookCell.content := content; NotebookCell.output := Some (lit "");
     NotebookCell.isExecuting := running; NotebookCell.isEditing := None |}.

Definition markdownCell (id content : jsstring) : NotebookCell.t :=
  {| NotebookCell.id := id; NotebookCell.type := markdown_cell;
     NotebookCell.content := content; NotebookCell.output := None;
     NotebookCell.isExecuting := None; NotebookCell.isEditing := Some false |}.

(** A notebook of two code cells around a markdown cell. *)
Definition threeCells : list NotebookCell.t :=
  [ codeCell (lit "1") (lit "print(1 / 0)") None;
    markdownCell (lit "2") (lit "## Notes");
    codeCell (lit "3") (lit "print(2)") None ].

(** Surroundings in which every request settles as [o] and every
    prompt is answered by [a]. *)
Definition always (o : Settled) (a : option jsstring) : World :=
  {| clock := fun _ => 0%N; random := fun _ => 100;
     service := fun _ _ => o; user := fun _ _ => a |}.

Definition succeeded (out : jsstring) : Settled :=
  Resolved {| success := true; stdout := out; stderr := lit "" |}.

Definition failed (err : jsstring) : Settled :=
  Resolved {| success := false; stdout := lit ""; stderr := err |}.

Definition thrown (c m : jsstring) : Settled :=
  Rejected {| err_code := Some c; message := Some m;
              response_data_detail := None |}.

(** The input gate of [handleRun]. *)
Definition needsInput (st : State) : bool :=
  (0 <? matchCount (String_match (currentCodeOf st) inputRe))
  && negb (truthy (trim (userInput st))).

Definition editorRequest (st : State) : Request :=
  {| code := currentCodeOf st; stdin := Some (userInput st); notebook_id := None |}.


(** ** The other handlers of the component *)

(** *** Runtime functions they use *)

(** [String(n)] for a non-negative integer [n], here [Date.now()]. *)
Definition ofN (n : N) : jsstring :=
  lit (NilZero.string_of_uint (N.to_uint n)).

(** [String.prototype.endsWith] *)
Definition endsWith (s w : jsstring) : bool :=
  (length w <=? length s) && eqb (skipn (length s - length w) s) w.

(** [Array.prototype.findIndex]; [None] is the result [-1]. *)
Fixpoint findIndex {A : Type} (p : A -> bool) (l : list A) : option nat :=
  match l with
  | [] => None
  | x :: l' => if p x then Some 0 else option_map S (findIndex p l')
  end.

(** [index + 1] for a result of [findIndex]: [-1 + 1] is [0]. *)
Definition succIndex (index : option nat) : nat :=
  match index with Some i => S i | None => 0 end.

(** [splice(start, 0, item)] on a copy, for [0 <= start]; a start
    beyond the end inserts at the end. *)
Definition spliceInsert {A : Type} (start : nat) (item : A) (l : list A) : list A :=
  firstn start l ++ item :: skipn start l.

(** [filter((_, idx) => idx !== index)] *)
Fixpoint removeIndex {A : Type} (index : nat) (l : list A) : list A :=
  match l with
  | [] => []
  | x :: l' =>
      match index with
      | O => l'
      | S i => x :: removeIndex i l'
      end
  end.

(** [map((x, idx) => idx === index ? f(x) : x)] *)
Fixpoint mapIndex {A : Type} (index : nat) (f : A -> A) (l : list A) : list A :=
  match l with
  | [] => []
  | x :: l' =>
      match index with
      | O => f x :: l'
      | S i => x :: mapIndex i f l'
      end
  end.

(** [String.prototype.replace] with a string pattern and a replacement
    text without [$]: the first occurrence is replaced. *)
Fixpoint replaceFirst (s pattern replacement : jsstring) : jsstring :=
  if startsWith pattern s then replacement ++ skipn (length pattern) s
  else
    match s with
    | [] => []
    | c :: s' => c :: replaceFirst s' pattern replacement
    end.

(** *** The terminal *)

(** [clearOutput]; [setExecutionTime(0)] is the elapsed time of two
    equal clock readings. *)
Definition clearOutput : Proc :=
  call (setOutput (lit "")) ;;
  call (setExecutionTime 0%N 0%N) ;;
  call (setMemoryUsed (lit "0 KB")) ;;
  call (setWaitingForInput false) ;;
  call (setUserInput (lit "")).

(** The two buttons over the graph display.  They are rendered when
    [graphs.length > 1] and disabled at the first and at the last
    graph; a button that is not there or is disabled calls nothing. *)
Definition previousGraph (st : State) : Proc :=
  if (1 <? length (graphs st)) && negb (currentGraphIndex st =? 0)
  then call (setCurrentGraphIndex (Nat.max 0 (currentGraphIndex st - 1)))
  else Return.

Definition nextGraph (st : State) : Proc :=
  if (1 <? length (graphs st))
     && negb (currentGraphIndex st =? length (graphs st) - 1)
  then call (setCurrentGraphIndex
               (Nat.min (length (graphs st) - 1) (currentGraphIndex st + 1)))
  else Return.

(** *** The notebook *)

(** [{ ...cell, content }] *)
Definition with_content (c : NotebookCell.t) (content : jsstring) : NotebookCell.t :=
  {| NotebookCell.id := NotebookCell.id c;
     NotebookCell.type := NotebookCell.type c;
     NotebookCell.content := content;
     NotebookCell.output := NotebookCell.output c;
     NotebookCell.isExecuting := NotebookCell.isExecuting c;
     NotebookCell.isEditing := NotebookCell.isEditing c |}.

(** [{ ...c, isEditing }] *)
Definition with_isEditing (c : NotebookCell.t) (e : bool) : NotebookCell.t :=
  {| NotebookCell.id := NotebookCell.id c;
     NotebookCell.type := NotebookCell.type c;
     NotebookCell.content := NotebookCell.content c;
     NotebookCell.output := NotebookCell.output c;
     NotebookCell.isExecuting := NotebookCell.isExecuting c;
     NotebookCell.isEditing := Some e |}.

(** The cell [addNotebookCell] makes; [now] is the reading of
    [Date.now()]. *)
Definition newCellOf (now : N) (type : CellType) : NotebookCell.t :=
  {| NotebookCell.id := ofN now;
     NotebookCell.type := type;
     NotebookCell.content :=
       match type with
       | code_cell => lit "# New code cell"
       | markdown_cell => lit "## New Section"
       end;
     NotebookCell.output := Some (lit "");
     NotebookCell.isExecuting := None;
     NotebookCell.isEditing := None |}.

Definition addNotebookCell (st : State) (now : N) (type : CellType)
    (afterId : option jsstring) : Proc :=
  let notebookCells := notebookCells st in
  let newCell := newCellOf now type in
  if present afterId then
    let index :=
      findIndex (fun c => eqb (NotebookCell.id c) (valueOf afterId)) notebookCells in
    let newCells := spliceInsert (succIndex index) newCell notebookCells in
    call (setNotebookCells newCells)
  else
    call (setNotebookCells (notebookCells ++ [newCell])).

Definition updateNotebookCell (st : State) (id content : jsstring) : Proc :=
  call (setNotebookCells
          (updateCell (notebookCells st) id (fun cell => with_content cell content))).

Definition deleteNotebookCell (st : State) (id : jsstring) : Proc :=
  if length (notebookCells st) =? 1 then Return else
  call (setNotebookCells
          (filter (fun cell => negb (eqb (NotebookCell.id cell) id))
                  (notebookCells st))).

(** [onBlur] and [onDoubleClick] of a markdown cell. *)
Definition markdown_onBlur (st : State) (id : jsstring) : Proc :=
  call (setNotebookCells
          (updateCell (notebookCells st) id (fun c => with_isEditing c false))).

Definition markdown_onDoubleClick (st : State) (id : jsstring) : Proc :=
  call (setNotebookCells
          (updateCell (notebookCells st) id (fun c => with_isEditing c true))).

(** The state after a handler that does not wait has run on the render
    [st]. *)
Definition afterSync (p : Proc) (st : State) : State :=
  replay (run (always (succeeded (lit "")) None) p []) st.

(** *** The file tabs

    The handlers of the tabs are synchronous; each is a function of the
    state values it reads and writes. *)

Module Tabs.
Record t := {
  files : list File;
  activeFileIndex : nat;
  newFileName : jsstring;
  showFileDialog : bool;
  output : jsstring
}.
End Tabs.

(** [created] is the text of [new Date().toLocaleString()]. *)
Definition createNewFile (created : jsstring) (t : Tabs.t) : Tabs.t :=
  if negb (truthy (trim (Tabs.newFileName t))) then t else
  let fileName :=
    if endsWith (Tabs.newFileName t) (lit ".py")
    then Tabs.newFileName t
    else Tabs.newFileName t ++ lit ".py" in
  let existingIndex := findIndex (fun f => eqb (name f) fileName) (Tabs.files t) in
  match existingIndex with
  | Some existingIndex =>
      {| Tabs.files := Tabs.files t;
         Tabs.activeFileIndex := existingIndex;
         Tabs.newFileName := lit "";
         Tabs.showFileDialog := false;
         Tabs.output := lit "" |}
  | None =>
      let newFile :=
        {| name := fileName;
           file_content :=
             lit "# " ++ fileName ++ lit "\n# Created: " ++ created ++ lit "\n\n" |} in
      {| Tabs.files := Tabs.files t ++ [newFile];
         Tabs.activeFileIndex := length (Tabs.files t);
         Tabs.newFileName := lit "";
         Tabs.showFileDialog := false;
         Tabs.output := lit "" |}
  end.

Definition switchFile (index : nat) (t : Tabs.t) : Tabs.t :=
  {| Tabs.files := Tabs.files t;
     Tabs.activeFileIndex := index;
     Tabs.newFileName := Tabs.newFileName t;
     Tabs.showFileDialog := Tabs.showFileDialog t;
     Tabs.output := lit "" |}.

Definition closeFile (index : nat) (t : Tabs.t) : Tabs.t :=
  let files := Tabs.files t in
  let activeFileIndex := Tabs.activeFileIndex t in
  if length files =? 1 then t else
  {| Tabs.files := removeIndex index files;
     Tabs.activeFileIndex :=
       if (index <=? activeFileIndex) && (0 <? activeFileIndex)
       then activeFileIndex - 1
       else if (activeFileIndex =? index) && (S index =? length files)
       then index - 1
       else activeFileIndex;
     Tabs.newFileName := Tabs.newFileName t;
     Tabs.showFileDialog := Tabs.showFileDialog t;
     Tabs.output := Tabs.output t |}.

Definition updateCurrentFileContent (newContent : jsstring) (t : Tabs.t) : Tabs.t :=
  {| Tabs.files :=
       mapIndex (Tabs.activeFileIndex t)
         (fun file => {| name := name file; file_content := newContent |})
         (Tabs.files t);
     Tabs.activeFileIndex := Tabs.activeFileIndex t;
     Tabs.newFileName := Tabs.newFileName t;
     Tabs.showFileDialog := Tabs.showFileDialog t;
     Tabs.output := Tabs.output t |}.

(** [onChange] of the editor: [updateCurrentFileContent(value || '')]. *)
Definition editor_onChange (value : option jsstring) (t : Tabs.t) : Tabs.t :=
  updateCurrentFileContent (if present value then valueOf value else lit "") t.

(** [name.replace('.py', '.ipynb')]: the label of a tab in notebook
    mode and the download name of [saveNotebook]. *)
Definition notebookFileName (name : jsstring) : jsstring :=
  replaceFirst name (lit ".py") (lit ".ipynb").

(** The render [st] with the files, the active index and the output of
    the tabs [t]. *)
Definition withTabs (st : State) (t : Tabs.t) : State :=
  {| output := Tabs.output t; isExecuting := isExecuting st;
     userInput := userInput st; waitingForInput := waitingForInput st;
     executionTime := executionTime st; memoryUsed := memoryUsed st;
     notebookCells := notebookCells st; notebookId := notebookId st;
     files := Tabs.files t; activeFileIndex := Tabs.activeFileIndex t;
     graphs := graphs st; currentGraphIndex := currentGraphIndex st |}.

(** The graph shown by [graphs[currentGraphIndex]] exists whenever
    there is a graph. *)
Definition graphIndexValid (st : State) : Prop :=
  graphs st = [] \/ currentGraphIndex st < length (graphs st).

(** ** Vocabulary of the further properties *)

(** [onChange] of the input box under the terminal:
    [setUserInput(e.target.value)]. *)
Definition input_onChange (value : jsstring) : Proc :=
  call (setUserInput value).

(** The settlements of a trace, in order. *)
Fixpoint settlements (tr : list Event) : list Settled :=
  match tr with
  | [] => []
  | EvSettled o :: tr' => o :: settlements tr'
  | _ :: tr' => settlements tr'
  end.

(** The state of the editor surface when its request leaves. *)
Definition dispatched (st0 : State) : State :=
  replay [EvSet (setGraphs []); EvSet (setCurrentGraphIndex 0);
          EvSet (setIsExecuting true); EvSet (setWaitingForInput false);
          EvSet (setOutput (lit "Executing...\n"))] st0.

(** The terminal of [s] shows what the terminal of [s0] shows. *)
Definition sameTerminal (s s0 : State) : Prop :=
  output s = output s0 /\ isExecuting s = isExecuting s0
  /\ userInput s = userInput s0 /\ waitingForInput s = waitingForInput s0
  /\ executionTime s = executionTime s0 /\ memoryUsed s = memoryUsed s0
  /\ graphs s = graphs s0 /\ currentGraphIndex s = currentGraphIndex s0.

(** [v] is [cells] with the cells called [id] changed by a function
    that keeps the id, the type, the content and the editing flag of a
    cell. *)
Definition rewritesCell (cells : list NotebookCell.t) (v : list NotebookCell.t)
    : Prop :=
  exists id f,
    v = updateCell cells id f
    /\ forall c, NotebookCell.id (f c) = NotebookCell.id c
              /\ NotebookCell.type (f c) = NotebookCell.type c
              /\ NotebookCell.content (f c) = NotebookCell.content c
              /\ NotebookCell.isEditing (f c) = NotebookCell.isEditing c.

(** Every setter call of the trace is a [setNotebookCells] with a value
    that satisfies [P]. *)
Definition writesOnly (P : list NotebookCell.t -> Prop) (tr : list Event) : Prop :=
  Forall (fun e =>
            match e with
            | EvSet (setNotebookCells v) => P v
            | EvSet _ => False
            | _ => True
            end) tr.

(** Two cell runs that overlap, for cells that do not prompt.  The run
    of [a] is started in the render [st]: it marks its cell and its
    request leaves.  The run of [b] is started in the next render,
    while the request of [a] is in flight.  The request of [a] settles
    and its run completes; then the request of [b] settles and its run
    completes. *)
Definition overlapping (w : World) (st : State) (a b : jsstring) : list Event :=
  let runA := run w (runNotebookCell st a) [] in
  let startA := firstn 2 runA in
  let nextRender := replay startA st in
  let runB := run w (runNotebookCell nextRender b) startA in
  let startB := firstn 2 runB in
  startA ++ startB ++ skipn 2 runA ++ skipn 2 runB.

(** A text that is not empty and has no line terminator. *)
Definition singleLine (payload : jsstring) : Prop :=
  payload <> [] /\ Forall (fun c => isLineTerminator c = false) payload.

(** [t] contains a wrapper around [payload]. *)
Definition wraps (t payload : jsstring) : Prop :=
  exists pre ordinal post,
    t = pre ++ wrapper ordinal payload ++ post /\ isOrdinal ordinal = true.

(** The name [createNewFile] gives a file. *)
Definition fileNameOf (newFileName : jsstring) : jsstring :=
  if endsWith newFileName (lit ".py") then newFileName
  else newFileName ++ lit ".py".

(** The text the editor hands to [onChange], after [value || '']. *)
Definition textOf (value : option jsstring) : jsstring :=
  match value with Some s => s | None => lit "" end.

(** A render that shows the first of two graphs. *)
Definition twoGraphs : State :=
  applySetter (setGraphs [lit "iVBORw0KGgo="; lit "R0lGODlhAQABAAAAACw="])
    (editing (lit "print(1)")).

(** Two tabs, the second active, with the dialog open on the name
    [data]. *)
Definition twoTabs : Tabs.t :=
  {| Tabs.files := [ {| name := lit "main.py"; file_content := lit "print(1)" |};
                     {| name := lit "util.py"; file_content := lit "x = 2" |} ];
     Tabs.activeFileIndex := 1;
     Tabs.newFileName := lit "data";
     Tabs.showFileDialog := true;
     Tabs.output := lit "1\n" |}.

(** * Properties *)

(** ** Strings *)

Lemma jsstring_eqb_eq (a b : jsstring) : eqb a b = true <-> a = b.
Proof.
  revert b; induction a as [|x a IH]; intros [|y b]; simpl; split;
    try congruence; try discriminate.
  - intros H. apply andb_true_iff in H as [Hx Hab].
    apply N.eqb_eq in Hx. apply IH in Hab. congruence.
  - intros H. injection H as -> ->. rewrite N.eqb_refl. simpl. now apply IH.
Qed.

Lemma jsstring_eqb_refl (a : jsstring) : eqb a a = true.
Proof. now apply jsstring_eqb_eq. Qed.

Lemma stripPrefix_app (w s : jsstring) : stripPrefix w (w ++ s) = Some s.
Proof.
  induction w as [|a w IH]; simpl; [reflexivity|].
  now rewrite N.eqb_refl.
Qed.

Lemma stripPrefix_Some (w s s' : jsstring) :
  stripPrefix w s = Some s' -> s = w ++ s'.
Proof.
  revert s; induction w as [|a w IH]; intros s; simpl.
  - congruence.
  - destruct s as [|c s]; [discriminate|].
    destruct (N.eqb_spec c a) as [->|]; [|discriminate].
    intros H. now rewrite (IH _ H).
Qed.

Lemma startsWith_app (w s : jsstring) : startsWith w (w ++ s) = true.
Proof. unfold startsWith. now rewrite stripPrefix_app. Qed.

Lemma startsWith_true (w s : jsstring) :
  startsWith w s = true -> exists s', s = w ++ s'.
Proof.
  unfold startsWith. destruct (stripPrefix w s) as [s'|] eqn:E; [|discriminate].
  intros _. exists s'. now apply stripPrefix_Some.
Qed.

Lemma includes_skipn (s w : jsstring) (i : nat) :
  includes s w = false -> startsWith w (skipn i s) = false.
Proof.
  revert i; induction s as [|c s IH]; intros i H.
  - destruct i; simpl in *; now apply orb_false_iff in H as [H _].
  - simpl in H. apply orb_false_iff in H as [H0 H1].
    destruct i as [|i]; simpl; [exact H0|now apply IH].
Qed.

Lemma includes_head (s w : jsstring) :
  startsWith w s = true -> includes s w = true.
Proof. intros H. destruct s; simpl; now rewrite H. Qed.

Lemma includes_app (a w b : jsstring) : includes (a ++ w ++ b) w = true.
Proof.
  induction a as [|c a IH].
  - change ([] ++ w ++ b) with (w ++ b). apply includes_head, startsWith_app.
  - change ((c :: a) ++ w ++ b) with (c :: (a ++ w ++ b)).
    simpl. rewrite IH. apply orb_true_r.
Qed.

Lemma includes_true (s w : jsstring) :
  includes s w = true -> exists a b, s = a ++ w ++ b.
Proof.
  induction s as [|c s IH]; simpl; intros H.
  - rewrite orb_false_r in H. apply startsWith_true in H as [s' ->].
    now exists [], s'.
  - apply orb_true_iff in H as [H|H].
    + apply startsWith_true in H as [s' ->]. now exists [], s'.
    + destruct (IH H) as (a & b & ->). now exists (c :: a), b.
Qed.

Lemma firstn_minus (w s : jsstring) :
  firstn (length (w ++ s) - length s) (w ++ s) = w.
Proof.
  rewrite length_app, Nat.add_sub.
  rewrite firstn_app, Nat.sub_diag, firstn_all. simpl. apply app_nil_r.
Qed.

Lemma startsWith_long w a b :
  length w <= length a -> startsWith w (a ++ b) = startsWith w a.
Proof.
  unfold startsWith. revert a; induction w as [|x w IH]; intros a H; [reflexivity|].
  destruct a as [|c a]; simpl in H; [lia|]. simpl.
  destruct (c =? x)%N; [|reflexivity]. apply IH. lia.
Qed.

Lemma skipn_app_lt {A} i (a b : list A) :
  i <= length a -> skipn i (a ++ b) = skipn i a ++ b.
Proof.
  intros H. rewrite skipn_app. replace (i - length a) with 0 by lia. reflexivity.
Qed.

(** A token [w ++ [x]] that does not occur in [a ++ w] starts at no
    position of [a] but the first, whatever follows. *)
Lemma startsWith_later w x a1 a2 c :
  includes ((a1 ++ a2) ++ w) (w ++ [x]) = false -> a2 <> [] ->
  startsWith (w ++ [x]) (a2 ++ (w ++ [x]) ++ c) = false.
Proof.
  intros H Hne.
  replace (a2 ++ (w ++ [x]) ++ c) with ((a2 ++ w) ++ x :: c)
    by (now rewrite <- !app_assoc).
  rewrite startsWith_long.
  - pose proof (includes_skipn _ _ (length a1) H) as H'.
    rewrite <- app_assoc, skipn_app_lt, skipn_all in H' by lia. exact H'.
  - destruct a2; [congruence|]. rewrite !length_app. simpl. lia.
Qed.

(** ** The matcher *)

Lemma repeatGreedy_sound ok s k r :
  repeatGreedy ok s k = Some r ->
  exists a b, s = a ++ b /\ Forall (fun c => ok c = true) a /\ k b = Some r.
Proof.
  induction s as [|c s IH]; simpl; intros H.
  - now exists [], [].
  - destruct (ok c) eqn:Hc.
    + destruct (repeatGreedy ok s k) as [r'|] eqn:E.
      * injection H as ->. destruct (IH eq_refl) as (a & b & -> & Ha & Hk).
        exists (c :: a), b. repeat split; auto.
      * exists [], (c :: s). repeat split; auto.
    + exists [], (c :: s). repeat split; auto.
Qed.

Lemma repeatLazy_sound ok s k r :
  repeatLazy ok s k = Some r ->
  exists a b, s = a ++ b /\ Forall (fun c => ok c = true) a /\ k b = Some r.
Proof.
  induction s as [|c s IH]; simpl; intros H.
  - destruct (k []) eqn:E; [|discriminate]. injection H as ->.
    now exists [], [].
  - destruct (k (c :: s)) eqn:E.
    + injection H as ->. exists [], (c :: s). repeat split; auto.
    + destruct (ok c) eqn:Hc; [|discriminate].
      destruct (IH H) as (a & b & -> & Ha & Hk).
      exists (c :: a), b. repeat split; auto.
Qed.

Lemma repeatAtom_sound g ok s k r :
  repeatAtom g ok s k = Some r ->
  exists a b, s = a ++ b /\ Forall (fun c => ok c = true) a /\ k b = Some r.
Proof. destruct g; [apply repeatGreedy_sound|apply repeatLazy_sound]. Qed.

(** Whatever the matcher accepts is a word of the pattern followed by
    an input the continuation accepts. *)
Lemma matcher_sound f p :
  forall s caps k r,
    matcher f p s caps k = Some r ->
    exists w s' caps', s = w ++ s' /\ denotes f p w /\ k s' caps' = Some r.
Proof.
  induction p as [w|a|a b g|p IH|p1 IH1 p2 IH2]; intros s caps k r H; simpl in H.
  - destruct (stripPrefix w s) as [s'|] eqn:E; [|discriminate].
    apply stripPrefix_Some in E. exists w, s', caps. now repeat split.
  - destruct s as [|c s]; [discriminate|].
    destruct (accepts f a c) eqn:Hc; [|discriminate].
    exists [c], s, caps. repeat split; auto. now exists c.
  - destruct b.
    + apply repeatAtom_sound in H as (x & y & -> & Hx & Hk).
      exists x, y, caps. now repeat split.
    + destruct s as [|c s]; [discriminate|].
      destruct (accepts f a c) eqn:Hc; [|discriminate].
      apply repeatAtom_sound in H as (x & y & -> & Hx & Hk).
      exists (c :: x), y, caps. repeat split; auto. discriminate.
  - apply IH in H as (w & s' & caps' & -> & Hw & Hk).
    exists w, s'. eexists. repeat split; eauto.
  - apply IH1 in H as (w1 & s1 & caps1 & -> & Hw1 & H).
    apply IH2 in H as (w2 & s2 & caps2 & -> & Hw2 & H).
    exists (w1 ++ w2), s2, caps2. rewrite <- app_assoc. repeat split; auto.
    now exists w1, w2.
Qed.

Lemma matchHere_sound r s m caps :
  matchHere r s = Some (m, caps) ->
  exists rest, s = m ++ rest /\ denotes (dotAll r) (source r) m.
Proof.
  unfold matchHere.
  destruct (matcher _ _ _ _ _) as [[rest caps']|] eqn:E; [|discriminate].
  intros H. injection H as <- <-.
  apply matcher_sound in E as (w & s' & caps'' & -> & Hw & Hk).
  injection Hk as -> ->. exists rest. now rewrite firstn_minus.
Qed.

(** A string in which no attempt succeeds has no match and is left as
    it is by the replacement. *)
Lemma scan_none r s :
  (forall i, matchHere r (skipn i s) = None) -> scan r s 0 = [].
Proof.
  induction s as [|c s IH]; intros H; pose proof (H 0) as H0;
    simpl in H0; simpl; rewrite H0; [reflexivity|].
  apply IH. intros i. exact (H (S i)).
Qed.


(** *** Texts without a wrapper *)

Lemma forallb_Forall {A} (f : A -> bool) l :
  Forall (fun c => f c = true) l -> forallb f l = true.
Proof. induction 1; simpl; [reflexivity|]. now rewrite H, IHForall. Qed.

Lemma graphRe_denotes m :
  denotes true (source graphRe) m ->
  exists ordinal payload,
    m = wrapper ordinal payload /\ isOrdinal ordinal = true /\ payload <> [].
Proof.
  cbn [denotes source graphRe].
  intros (w1 & w2 & -> & -> & w3 & w4 & -> & [Hne Hd] & w5 & w6 & -> & -> &
          w7 & w8 & -> & [Hp _] & ->).
  exists w3, w7. repeat split; auto.
  unfold isOrdinal. apply andb_true_iff. split.
  - destruct w3; [congruence|reflexivity].
  - now apply forallb_Forall.
Qed.

Lemma graphRe_none t :
  ~ hasWrapper t -> forall i, matchHere graphRe (skipn i t) = None.
Proof.
  intros Hno i. destruct (matchHere graphRe (skipn i t)) as [[m caps]|] eqn:E;
    [|reflexivity].
  exfalso. apply Hno.
  apply matchHere_sound in E as (rest & E & Hm).
  apply graphRe_denotes in Hm as (ordinal & payload & -> & Ho & Hp).
  exists (firstn i t), ordinal, payload, rest. repeat split; auto.
  rewrite <- E. symmetry. apply firstn_skipn.
Qed.

Lemma demultiplex_none t :
  (forall i, matchHere graphRe (skipn i t) = None) -> demultiplex t = (t, []).
Proof.
  intros H. unfold demultiplex, String_match.
  cbn [global graphRe]. now rewrite (scan_none _ _ H).
Qed.

Lemma no_begin_marker t :
  includes t (lit "__GRAPH_") = false -> ~ hasWrapper t.
Proof.
  intros H (pre & ordinal & payload & post & -> & _ & _).
  unfold wrapper in H. rewrite <- !app_assoc in H.
  now rewrite includes_app in H.
Qed.

Lemma no_end_marker t :
  includes t (lit "__GRAPH_END__") = false -> ~ hasWrapper t.
Proof.
  intros H (pre & ordinal & payload & post & -> & _ & _).
  unfold wrapper in H.
  replace (pre ++ (lit "__GRAPH_" ++ ordinal ++ lit "__" ++ payload ++ lit "__GRAPH_END__") ++ post)
    with ((pre ++ lit "__GRAPH_" ++ ordinal ++ lit "__" ++ payload) ++ lit "__GRAPH_END__" ++ post) in H
    by (now rewrite <- !app_assoc).
  now rewrite includes_app in H.
Qed.

(** *** Exact runs of the quantifiers *)

Lemma repeatGreedy_run ok a b k :
  Forall (fun c => ok c = true) a ->
  match b with [] => True | c :: _ => ok c = false end ->
  (forall a1 a2, a = a1 ++ a2 -> a2 <> [] -> k (a2 ++ b) = None) ->
  repeatGreedy ok (a ++ b) k = k b.
Proof.
  induction a as [|x a IH]; intros Ha Hb Hk.
  - simpl. destruct b as [|c b]; simpl; [reflexivity|now rewrite Hb].
  - inversion Ha as [|? ? Hx Ha']; subst. simpl. rewrite Hx.
    rewrite IH; auto.
    + destruct (k b) eqn:E; [reflexivity|].
      apply (Hk [] (x :: a)); [reflexivity|discriminate].
    + intros a1 a2 -> Hne. apply (Hk (x :: a1) a2); auto.
Qed.

Lemma repeatLazy_run ok a b k r :
  Forall (fun c => ok c = true) a ->
  (forall a1 a2, a = a1 ++ a2 -> a2 <> [] -> k (a2 ++ b) = None) ->
  k b = Some r ->
  repeatLazy ok (a ++ b) k = Some r.
Proof.
  induction a as [|x a IH]; intros Ha Hk Hr.
  - simpl. destruct b; simpl; now rewrite Hr.
  - inversion Ha as [|? ? Hx Ha']; subst.
    change ((x :: a) ++ b) with (x :: (a ++ b)). cbn [repeatLazy].
    assert (H0 : k (x :: a ++ b) = None)
      by (apply (Hk [] (x :: a)); [reflexivity|discriminate]).
    rewrite H0, Hx. apply IH; auto.
    intros a1 a2 -> Hne. apply (Hk (x :: a1) a2); auto.
Qed.

Lemma matcher_Chars f w s caps k :
  matcher f (Chars w) (w ++ s) caps k = k s caps.
Proof. simpl. now rewrite stripPrefix_app. Qed.

Lemma isDigit_not_underscore d : isDigit d = true -> (d =? 95)%N = false.
Proof.
  unfold isDigit. simpl. intros H. apply andb_true_iff in H as [_ H].
  apply N.leb_le in H. apply N.eqb_neq. lia.
Qed.

Lemma isOrdinal_inv ordinal :
  isOrdinal ordinal = true ->
  exists d ds, ordinal = d :: ds /\ isDigit d = true
               /\ Forall (fun c => isDigit c = true) ds.
Proof.
  unfold isOrdinal. intros H. apply andb_true_iff in H as [Hne Hd].
  destruct ordinal as [|d ds]; [discriminate|]. simpl in Hd.
  apply andb_true_iff in Hd as [Hd Hds]. exists d, ds. repeat split; auto.
  apply Forall_forall. intros x Hx. rewrite forallb_forall in Hds. auto.
Qed.

(** [\d+] on an ordinal that is followed by an underscore: the whole
    ordinal, when the continuation refuses every input that starts with
    a digit. *)
Lemma matcher_ordinal f ordinal b caps k :
  isOrdinal ordinal = true ->
  (forall d t, isDigit d = true -> k (d :: t) caps = None) ->
  matcher f (Quant Esc_d Plus Greedy) (ordinal ++ 95%N :: b) caps k
  = k (95%N :: b) caps.
Proof.
  intros Ho Hk. apply isOrdinal_inv in Ho as (d & ds & -> & Hd & Hds).
  change ((d :: ds) ++ 95%N :: b) with (d :: (ds ++ 95%N :: b)).
  cbn [matcher]. change (accepts f Esc_d d) with (isDigit d). rewrite Hd.
  cbn [repeatAtom]. apply repeatGreedy_run.
  - exact Hds.
  - reflexivity.
  - intros a1 a2 -> Hne. destruct a2 as [|x a2]; [congruence|].
    apply Hk. apply Forall_app in Hds as [_ Hds]. now inversion Hds.
Qed.



Lemma matcher_Seq f p q s caps k :
  matcher f (Seq p q) s caps k
  = matcher f p s caps (fun s' caps' => matcher f q s' caps' k).
Proof. reflexivity. Qed.

Lemma matcher_Group f p s caps k :
  matcher f (Group p) s caps k
  = matcher f p s caps
      (fun s' caps' => k s' (caps' ++ [firstn (length s - length s') s])).
Proof. reflexivity. Qed.

Lemma matcher_Chars_head f a w c t caps k :
  (c =? a)%N = false -> matcher f (Chars (a :: w)) (c :: t) caps k = None.
Proof. intros H. simpl. now rewrite H. Qed.

Lemma matcher_ordinal_group f ordinal b caps k :
  isOrdinal ordinal = true ->
  (forall d t caps', isDigit d = true -> k (d :: t) caps' = None) ->
  matcher f (Group (Quant Esc_d Plus Greedy)) (ordinal ++ lit "__" ++ b) caps k
  = k (lit "__" ++ b) (caps ++ [ordinal]).
Proof.
  intros Ho Hk. rewrite matcher_Group.
  change (lit "__" ++ b) with (95%N :: 95%N :: b).
  rewrite matcher_ordinal; auto.
  now rewrite firstn_minus.
Qed.

Lemma wrapperTail_digit f d t caps k :
  isDigit d = true -> matcher f wrapperTail (d :: t) caps k = None.
Proof.
  intros H. unfold wrapperTail. rewrite matcher_Seq.
  apply matcher_Chars_head. now apply isDigit_not_underscore.
Qed.




(** *** Walking over the text *)


Lemma erase_skip r a rest : erase r (a ++ rest) (length a) = erase r rest 0.
Proof. induction a as [|c a IH]; simpl; auto. Qed.


Lemma erase_prefix r pre rest :
  (forall i, i < length pre -> matchHere r (skipn i (pre ++ rest)) = None) ->
  erase r (pre ++ rest) 0 = pre ++ erase r rest 0.
Proof.
  induction pre as [|c pre IH]; intros H; [reflexivity|].
  pose proof (H 0 (Nat.lt_0_succ _)) as H0. simpl in H0. simpl. rewrite H0.
  f_equal. apply IH. intros i Hi. apply (H (S i)). simpl. lia.
Qed.


Lemma erase_match r m rest caps :
  matchHere r (m ++ rest) = Some (m, caps) -> m <> [] ->
  erase r (m ++ rest) 0 = erase r rest 0.
Proof.
  intros H Hne. destruct m as [|c m]; [congruence|].
  change ((c :: m) ++ rest) with (c :: (m ++ rest)) in *.
  cbn [erase]. rewrite H. cbn [length]. apply erase_skip.
Qed.

(** An attempt of an expression that begins with literal characters
    fails where the text does not begin with them. *)
Lemma matchHere_needs_prefix r w p s :
  source r = Seq (Chars w) p -> startsWith w s = false -> matchHere r s = None.
Proof.
  unfold matchHere, startsWith. intros -> H. simpl.
  now destruct (stripPrefix w s).
Qed.

(** No attempt succeeds before a token [w ++ [x]] when the token does
    not occur in the text before it followed by [w]. *)
Lemma prefix_free r w x p pre rest :
  source r = Seq (Chars (w ++ [x])) p ->
  includes (pre ++ w) (w ++ [x]) = false ->
  forall i, i < length pre ->
    matchHere r (skipn i (pre ++ w ++ rest)) = None.
Proof.
  intros Hr H i Hi. eapply matchHere_needs_prefix; [exact Hr|].
  rewrite app_assoc, skipn_app_lt by (rewrite length_app; lia).
  rewrite startsWith_long.
  - now apply includes_skipn.
  - rewrite length_skipn, !length_app. simpl. lia.
Qed.





(** *** When the wrapper expression matches *)

Lemma repeatLazy_complete ok a b k r :
  Forall (fun c => ok c = true) a -> k b = Some r ->
  exists r', repeatLazy ok (a ++ b) k = Some r'.
Proof.
  induction a as [|x a IH]; intros Ha Hr.
  - exists r. simpl. destruct b; simpl; now rewrite Hr.
  - inversion Ha as [|? ? Hx Ha']; subst.
    change ((x :: a) ++ b) with (x :: (a ++ b)). cbn [repeatLazy].
    destruct (k (x :: a ++ b)) as [r0|]; [now exists r0|].
    rewrite Hx. now apply IH.
Qed.

(** Wherever a well-formed wrapper begins, an attempt of the wrapper
    expression succeeds. *)
Lemma matchHere_graphRe_some ordinal payload post :
  isOrdinal ordinal = true -> payload <> [] ->
  matchHere graphRe (wrapper ordinal payload ++ post) <> None.
Proof.
  intros Ho Hp. unfold matchHere. cbn [dotAll source graphRe].
  fold wrapperTail. unfold wrapper at 1. rewrite <- !app_assoc.
  rewrite matcher_Seq, matcher_Chars, matcher_Seq.
  rewrite matcher_ordinal_group;
    [|exact Ho|intros d t caps' Hd; now apply wrapperTail_digit].
  unfold wrapperTail. rewrite matcher_Seq, matcher_Chars, matcher_Seq.
  destruct payload as [|c p]; [congruence|].
  change ((c :: p) ++ lit "__GRAPH_END__" ++ post)
    with (c :: (p ++ lit "__GRAPH_END__" ++ post)).
  cbn [matcher accepts orb repeatAtom].
  match goal with |- context [repeatLazy ?ok _ ?k] =>
    destruct (repeatLazy_complete ok p (lit "__GRAPH_END__" ++ post) k
                (post, ([] ++ [ordinal])
                       ++ [firstn (length (c :: p ++ lit "__GRAPH_END__" ++ post) - length (lit "__GRAPH_END__" ++ post))
                                  (c :: p ++ lit "__GRAPH_END__" ++ post)]))
      as [[rest caps] E]
  end.
  - apply Forall_forall. intros x _. reflexivity.
  - now rewrite stripPrefix_app.
  - rewrite E. discriminate.
Qed.

Lemma scan_some r s i :
  matchHere r (skipn i s) <> None -> scan r s 0 <> [].
Proof.
  revert s; induction i as [|i IH]; intros s H.
  - simpl in H. destruct s; cbn [scan];
      destruct (matchHere r _) as [[m caps]|]; congruence.
  - destruct s as [|c s]; simpl in H.
    + cbn [scan]. destruct (matchHere r []) as [[m caps]|]; congruence.
    + cbn [scan]. destruct (matchHere r (c :: s)) as [[m caps]|]; [discriminate|].
      now apply IH.
Qed.

(** [graphMatches] is [null] exactly when no well-formed wrapper occurs
    in the text. *)
Lemma graphMatches_null_iff t :
  String_match t graphRe = None <-> ~ hasWrapper t.
Proof.
  unfold String_match. cbn [global graphRe]. fold graphRe. split.
  - intros H (pre & ordinal & payload & post & -> & Ho & Hp).
    assert (S : scan graphRe (pre ++ wrapper ordinal payload ++ post) 0 <> []).
    { apply (scan_some graphRe _ (length pre)).
      rewrite skipn_app_lt, skipn_all by lia.
      now apply matchHere_graphRe_some. }
    destruct (scan graphRe _ 0); congruence.
  - intros H. now rewrite (scan_none _ _ (graphRe_none t H)).
Qed.

(** *** Graph blocks *)

Lemma accepts_any f c : accepts f (Either Esc_s Esc_S) c = true.
Proof. simpl. apply orb_negb_r. Qed.

Lemma matchHere_graphsBlockRe b c :
  includes (b ++ lit "__GRAPHS_END_") (lit "__GRAPHS_END__") = false ->
  matchHere graphsBlockRe
    ((lit "__GRAPHS_START__" ++ b ++ lit "__GRAPHS_END__") ++ c)
  = Some (lit "__GRAPHS_START__" ++ b ++ lit "__GRAPHS_END__", []).
Proof.
  intros Hb. unfold matchHere. cbn [dotAll source graphsBlockRe].
  set (m := lit "__GRAPHS_START__" ++ b ++ lit "__GRAPHS_END__").
  replace (m ++ c) with (lit "__GRAPHS_START__" ++ b ++ lit "__GRAPHS_END__" ++ c) at 1
    by (unfold m; now rewrite <- !app_assoc).
  rewrite matcher_Seq, matcher_Chars, matcher_Seq.
  cbn [matcher repeatAtom].
  rewrite (repeatLazy_run _ b _ _ (c, [])).
  - now rewrite firstn_minus.
  - apply Forall_forall. intros x _. apply accepts_any.
  - intros a1 a2 -> Hne.
    pose proof (startsWith_later (lit "__GRAPHS_END_") 95%N a1 a2 c Hb Hne) as S.
    change (lit "__GRAPHS_END_" ++ [95%N]) with (lit "__GRAPHS_END__") in S.
    unfold startsWith in S.
    now destruct (stripPrefix (lit "__GRAPHS_END__") (a2 ++ lit "__GRAPHS_END__" ++ c)).
  - now rewrite stripPrefix_app.
Qed.

(** The replacement drops a block from [__GRAPHS_START__] to the next
    [__GRAPHS_END__] and goes on behind it. *)
Lemma String_replace_empty_block a b c :
  includes (a ++ lit "__GRAPHS_START_") (lit "__GRAPHS_START__") = false ->
  includes (b ++ lit "__GRAPHS_END_") (lit "__GRAPHS_END__") = false ->
  String_replace_empty
    (a ++ lit "__GRAPHS_START__" ++ b ++ lit "__GRAPHS_END__" ++ c) graphsBlockRe
  = a ++ String_replace_empty c graphsBlockRe.
Proof.
  intros Ha Hb. unfold String_replace_empty.
  rewrite erase_prefix.
  - f_equal.
    replace (lit "__GRAPHS_START__" ++ b ++ lit "__GRAPHS_END__" ++ c)
      with ((lit "__GRAPHS_START__" ++ b ++ lit "__GRAPHS_END__") ++ c)
      by (now rewrite <- !app_assoc).
    apply (erase_match graphsBlockRe _ c []).
    + now apply matchHere_graphsBlockRe.
    + discriminate.
  - intros i Hi.
    change (lit "__GRAPHS_START__" ++ b ++ lit "__GRAPHS_END__" ++ c)
      with (lit "__GRAPHS_START_" ++ (95%N :: b ++ lit "__GRAPHS_END__" ++ c)).
    now apply (prefix_free graphsBlockRe (lit "__GRAPHS_START_") 95%N _ a _ eq_refl).
Qed.

Example demultiplex_enveloped :
  demultiplex
    (lit "A\n__GRAPHS_START__\n__GRAPH_0__XYZ__GRAPH_END__\n__GRAPHS_END__\nB")
  = (lit "A\n\nB", [lit "XYZ"]).
Proof. reflexivity. Qed.

(** ** Traces *)

Lemma run_seq w p q : forall h,
  run w (p ;; q) h = run w p h ++ run w q (h ++ run w p h).
Proof.
  induction p as [|u k IH|k IH|k IH|req k IH|msg k IH|ms k IH|k IH]; intros h; simpl.
  - now rewrite app_nil_r.
  - rewrite IH, <- app_assoc. reflexivity.
  - rewrite IH, <- app_assoc. reflexivity.
  - rewrite IH, <- app_assoc. reflexivity.
  - rewrite IH, <- app_assoc. reflexivity.
  - rewrite IH, <- app_assoc. reflexivity.
  - rewrite IH, <- app_assoc. reflexivity.
  - rewrite IH, <- app_assoc. reflexivity.
Qed.

Lemma run_call w u h : run w (call u) h = [EvSet u].
Proof. reflexivity. Qed.

Lemma replay_app tr1 tr2 st : replay (tr1 ++ tr2) st = replay tr2 (replay tr1 st).
Proof.
  revert st; induction tr1 as [|e tr1 IH]; intros st; [reflexivity|].
  destruct e; simpl; apply IH.
Qed.

Lemma requests_app tr1 tr2 : requests (tr1 ++ tr2) = requests tr1 ++ requests tr2.
Proof.
  induction tr1 as [|e tr1 IH]; [reflexivity|].
  destruct e; simpl; now rewrite IH.
Qed.

Lemma delays_app tr1 tr2 : delays (tr1 ++ tr2) = delays tr1 ++ delays tr2.
Proof.
  induction tr1 as [|e tr1 IH]; [reflexivity|].
  destruct e; simpl; now rewrite IH.
Qed.



(** The success branch shows what [demultiplex] returns. *)
Lemma handleRun_success_shows w result h st0 :
  let d := demultiplex (orElse (stdout result) (lit "Success (no output)")) in
  let st' := replay (run w (handleRun_success result) h) st0 in
  output st' = fst d /\ graphs st' = snd d.
Proof.
  unfold handleRun_success, demultiplex.
  destruct (String_match _ graphRe); simpl; auto.
Qed.

Lemma handleRun_success_requests w result h :
  requests (run w (handleRun_success result) h) = [].
Proof.
  unfold handleRun_success. destruct (String_match _ graphRe); reflexivity.
Qed.

(** *** The editor surface *)

Lemma handleRun_settled_requests w t0 o h :
  requests (run w (handleRun_settled t0 o) h) = [].
Proof.
  unfold handleRun_settled. rewrite run_seq, requests_app.
  destruct o as [result|error]; [|reflexivity].
  cbn [run seq call requests app].
  destruct (success result); [|reflexivity].
  now rewrite run_seq, requests_app, handleRun_success_requests.
Qed.

Lemma handleRun_settled_clears w t0 o h st0 :
  let st' := replay (run w (handleRun_settled t0 o) h) st0 in
  isExecuting st' = false /\ waitingForInput st' = false.
Proof.
  unfold handleRun_settled. rewrite run_seq, replay_app. simpl. auto.
Qed.

Lemma run_handleRun_dispatch w st h :
  isExecuting st = false -> needsInput st = false ->
  exists t0 o h',
    run w (handleRun st) h
    = [EvSet (setGraphs []); EvSet (setCurrentGraphIndex 0);
       EvSet (setIsExecuting true); EvSet (setWaitingForInput false);
       EvSet (setOutput (lit "Executing...\n")); EvNow t0;
       EvRequest (editorRequest st); EvSettled o]
      ++ run w (handleRun_settled t0 o) h'.
Proof.
  unfold needsInput, handleRun. intros -> ->. cbn [seq call run runCode app].
  do 3 eexists. reflexivity.
Qed.

Lemma run_handleRun_waiting w st h :
  isExecuting st = false -> needsInput st = true ->
  run w (handleRun st) h
  = [EvSet (setGraphs []); EvSet (setCurrentGraphIndex 0);
     EvSet (setWaitingForInput true);
     EvSet (setOutput
       (waitingMessage (matchCount (String_match (currentCodeOf st) inputRe))))].
Proof.
  unfold needsInput, handleRun. intros -> ->. reflexivity.
Qed.

Lemma run_handleRun_executing w st h :
  isExecuting st = true -> run w (handleRun st) h = [].
Proof. unfold handleRun. now intros ->. Qed.

(** *** Counting input call sites *)

Lemma matchHere_Chars w g d s :
  matchHere (RE (Chars w) g d) s
  = if startsWith w s then Some (w, []) else None.
Proof.
  unfold matchHere, startsWith. simpl.
  destruct (stripPrefix w s) as [s'|] eqn:E; [|reflexivity].
  apply stripPrefix_Some in E. subst s. now rewrite firstn_minus.
Qed.

Lemma scan_Chars_nil w g d s :
  scan (RE (Chars w) g d) s 0 = [] <-> includes s w = false.
Proof.
  induction s as [|c s IH]; cbn [scan includes]; rewrite matchHere_Chars.
  - destruct (startsWith w []); simpl; split; congruence.
  - destruct (startsWith w (c :: s)); simpl; [split; congruence|exact IH].
Qed.

Lemma inputCount_zero_iff s :
  matchCount (String_match s inputRe) = 0 <-> includes s (lit "input(") = false.
Proof.
  unfold String_match. cbn [global inputRe]. fold inputRe.
  rewrite <- (scan_Chars_nil (lit "input(") true false s). fold inputRe.
  destruct (scan inputRe s 0); simpl; split; congruence.
Qed.

(** *** The notebook surface *)

Lemma findCell_updateCell cells id f cell :
  (forall c, NotebookCell.id (f c) = NotebookCell.id c) ->
  findCell cells id = Some cell ->
  findCell (updateCell cells id f) id = Some (f cell).
Proof.
  intros Hf. unfold findCell, updateCell.
  induction cells as [|c cells IH]; simpl; [discriminate|].
  destruct (eqb (NotebookCell.id c) id) eqn:E.
  - intros H. injection H as ->. simpl. now rewrite Hf, E.
  - intros H. simpl. rewrite E. auto.
Qed.

Lemma run_settled w cells id o h :
  exists text,
    run w (runNotebookCell_settled cells id o) h
    = [EvSet (setNotebookCells (updateCell cells id (fun c =>
         NotebookCell.with_isExecuting_output c false text)))]
    /\ (forall result, o = Resolved result -> text = cellOutputOf result).
Proof.
  destruct o as [result|error]; eexists; (split; [reflexivity|]);
    intros r E; [now injection E as ->|discriminate].
Qed.

Lemma run_settled_prompted w cells id o h :
  exists text,
    run w (runNotebookCell_settled_prompted cells id o) h
    = [EvSet (setNotebookCells (updateCell cells id (fun c =>
         NotebookCell.with_isExecuting_output c false text)))]
    /\ (forall result, o = Resolved result -> text = cellOutputOf result).
Proof.
  destruct o as [result|error]; eexists; (split; [reflexivity|]);
    intros r E; [now injection E as ->|discriminate].
Qed.

(** The three ways a run of a code cell can go. *)
Lemma run_runNotebookCell w st id h cell :
  findCell (notebookCells st) id = Some cell ->
  NotebookCell.type cell = code_cell ->
  let cells := notebookCells st in
  let n := matchCount (String_match (NotebookCell.content cell) inputRe) in
  let tr := run w (runNotebookCell st id) h in
  let running := fun c => NotebookCell.with_isExecuting_output c true (lit "Running...") in
  (n = 0 /\ exists o text,
     tr = [EvSet (setNotebookCells (updateCell cells id running));
           EvRequest (cellRequest st cell (lit "")); EvSettled o;
           EvSet (setNotebookCells (updateCell cells id (fun c =>
             NotebookCell.with_isExecuting_output c false text)))]
     /\ (forall result, o = Resolved result -> text = cellOutputOf result))
  \/ (0 < n /\ exists input o text,
     tr = [EvPrompt (promptMessage n) (Some input);
           EvSet (setNotebookCells (updateCell cells id running));
           EvRequest (cellRequest st cell input); EvSettled o;
           EvSet (setNotebookCells (updateCell cells id (fun c =>
             NotebookCell.with_isExecuting_output c false text)))]
     /\ (forall result, o = Resolved result -> text = cellOutputOf result))
  \/ (0 < n /\
     tr = [EvPrompt (promptMessage n) None;
           EvSet (setNotebookCells (updateCell cells id (fun c =>
             NotebookCell.with_output c (lit "Execution cancelled - input required"))))]).
Proof.
  intros Hf Ht cells n tr running. unfold tr, runNotebookCell.
  unfold findCell in Hf. rewrite Hf, Ht. fold n.
  destruct (0 <? n) eqn:En.
  - apply Nat.ltb_lt in En. right. cbn [run].
    destruct (user w h (promptMessage n)) as [input|].
    + left. split; [exact En|].
      cbn [seq call run runCode].
      match goal with |- context [run w (runNotebookCell_settled_prompted ?c ?i ?o) ?h'] =>
        destruct (run_settled_prompted w c i o h') as (text & -> & Htext);
        exists input, o, text end.
      split; [reflexivity|exact Htext].
    + right. split; [exact En|reflexivity].
  - apply Nat.ltb_ge in En. left. split; [lia|].
    cbn [seq call run runCode].
    match goal with |- context [run w (runNotebookCell_settled ?c ?i ?o) ?h'] =>
      destruct (run_settled w c i o h') as (text & -> & Htext);
      exists o, text end.
    split; [reflexivity|exact Htext].
Qed.

Lemma run_runNotebookCell_skip w st id h :
  match findCell (notebookCells st) id with
  | Some cell => NotebookCell.type cell = markdown_cell
  | None => True
  end ->
  run w (runNotebookCell st id) h = [].
Proof.
  unfold findCell, runNotebookCell.
  destruct (find _ _) as [cell|]; [|reflexivity]. now intros ->.
Qed.




Lemma findCell_In cells cell :
  NoDup (map NotebookCell.id cells) -> In cell cells ->
  findCell cells (NotebookCell.id cell) = Some cell.
Proof.
  unfold findCell. induction cells as [|c cells IH]; intros Hnd Hin; [contradiction|].
  inversion Hnd as [|? ? Hnotin Hnd']; subst. simpl.
  destruct Hin as [->|Hin]; [now rewrite jsstring_eqb_refl|].
  destruct (eqb (NotebookCell.id c) (NotebookCell.id cell)) eqn:E; [|auto].
  apply jsstring_eqb_eq in E. exfalso. apply Hnotin. rewrite E. now apply in_map.
Qed.

Lemma attempt_cell w st h cell :
  findCell (notebookCells st) (NotebookCell.id cell) = Some cell ->
  NotebookCell.type cell = code_cell ->
  attempt st cell
    (run w (runNotebookCell st (NotebookCell.id cell) ;; AwaitTimeout 300 Return) h).
Proof.
  intros Hf Ht. rewrite run_seq. cbn [run].
  exists (run w (runNotebookCell st (NotebookCell.id cell)) h).
  split; [reflexivity|].
  destruct (run_runNotebookCell w st _ h cell Hf Ht)
    as [(_ & o & text & -> & _)|[(_ & input & o & text & -> & _)|(Hn & ->)]].
  - split; [reflexivity|]. left.
    eexists [_], (lit ""), o, [_]. repeat split.
  - split; [reflexivity|]. left.
    eexists [_; _], input, o, [_]. repeat split.
  - split; [reflexivity|]. right. split; [reflexivity|]. split.
    + destruct (includes (NotebookCell.content cell) (lit "input(")) eqn:E;
        [reflexivity|]. apply inputCount_zero_iff in E. lia.
    + eexists. left. reflexivity.
Qed.

Lemma run_runAllCells_loop w st cells : forall h,
  (forall c, In c cells ->
     findCell (notebookCells st) (NotebookCell.id c) = Some c) ->
  exists blocks,
    run w (runAllCells_loop st cells) h = concat blocks
    /\ Forall2 (attempt st) (filter isCode cells) blocks.
Proof.
  induction cells as [|cell cells IH]; intros h Hfind.
  - exists []. split; constructor.
  - cbn [runAllCells_loop]. rewrite run_seq.
    destruct (IH (h ++ run w
                (match NotebookCell.type cell with
                 | code_cell =>
                     runNotebookCell st (NotebookCell.id cell) ;; AwaitTimeout 300 Return
                 | markdown_cell => Return
                 end) h)) as (blocks & -> & Hb).
    { intros c Hc. apply Hfind. now right. }
    cbn [filter]. unfold isCode at 1.
    destruct (NotebookCell.type cell) eqn:Ht.
    + eexists (_ :: blocks). split; [reflexivity|].
      constructor; [|exact Hb]. apply attempt_cell; [|exact Ht].
      apply Hfind. now left.
    + exists blocks. split; [reflexivity|exact Hb].
Qed.

(** *** Failure messages *)






(** A code cell without input call site is sent, whatever its
    [isExecuting] flag. *)
Lemma requests_runNotebookCell_no_input w st id h cell :
  findCell (notebookCells st) id = Some cell ->
  NotebookCell.type cell = code_cell ->
  includes (NotebookCell.content cell) (lit "input(") = false ->
  requests (run w (runNotebookCell st id) h) = [cellRequest st cell (lit "")].
Proof.
  intros Hf Ht Hi. apply inputCount_zero_iff in Hi.
  destruct (run_runNotebookCell w st id h cell Hf Ht)
    as [(_ & o & text & -> & _)|[(Hn & _)|(Hn & _)]];
    [reflexivity|lia|lia].
Qed.



(** ** The model on concrete inputs *)

Example match_two_wrappers :
  String_match (lit "a__GRAPH_12__ab__GRAPH_END____GRAPH_3__c\nd__GRAPH_END__") graphRe
  = Some [lit "__GRAPH_12__ab__GRAPH_END__"; lit "__GRAPH_3__c\nd__GRAPH_END__"].
Proof. reflexivity. Qed.

Example match_first_with_groups :
  String_match (lit "__GRAPH_12__ab__GRAPH_END__") base64Re
  = Some [lit "__GRAPH_12__ab__GRAPH_END__"; lit "ab"].
Proof. reflexivity. Qed.

Example match_needs_a_payload :
  String_match (lit "__GRAPH_1____GRAPH_END__") graphRe = None.
Proof. reflexivity. Qed.

Example match_input_calls :
  matchCount (String_match (lit "a = input()\nb = int(input('n: '))") inputRe) = 2.
Proof. reflexivity. Qed.

Example trim_whitespace : trim (lit " \n a b \n") = lit "a b".
Proof. reflexivity. Qed.

Example demultiplex_two_in_block :
  demultiplex
    (lit "__GRAPHS_START__\n__GRAPH_0__AAA__GRAPH_END__\n__GRAPH_1__BBB__GRAPH_END__\n__GRAPHS_END__\nout\n")
  = (lit "out", [lit "AAA"; lit "BBB"]).
Proof. reflexivity. Qed.

(** A payload that spans two lines is matched by the outer expression
    but not by the inner one, which has no [s] flag. *)
Example demultiplex_multiline_payload :
  demultiplex (lit "__GRAPH_0__X\nY__GRAPH_END__")
  = (lit "__GRAPH_0__X\nY__GRAPH_END__", []).
Proof. reflexivity. Qed.

(** Two code cells around a markdown cell, the first request failing:
    two requests, in the order of the cells. *)
Example runAllCells_three_cells :
  requests (run (always (failed (lit "ZeroDivisionError: division by zero")) None)
                (runAllCells (notebook threeCells)) [])
  = [ {| code := lit "print(1 / 0)"; stdin := Some (lit "");
         notebook_id := Some (lit "notebook_1700000000000_k3j9x2abc") |};
      {| code := lit "print(2)"; stdin := Some (lit "");
         notebook_id := Some (lit "notebook_1700000000000_k3j9x2abc") |} ]
  /\ delays (run (always (failed (lit "ZeroDivisionError: division by zero")) None)
                 (runAllCells (notebook threeCells)) [])
     = [300; 300].
Proof. split; reflexivity. Qed.

(** Every write of a cell run starts from the cells of its snapshot:
    after a run of all cells from one render, the last code cell shows
    its result and the first one its output of before. *)
Example runAllCells_writes_snapshot :
  map NotebookCell.output
      (notebookCells
         (replay (run (always (succeeded (lit "ok\n")) None)
                      (runAllCells (notebook threeCells)) [])
                 (notebook threeCells)))
  = [Some (lit ""); None; Some (lit "ok\n")].
Proof. reflexivity. Qed.

(** A run of the editor on the initial file. *)
Example handleRun_initial :
  run (always (succeeded (lit "Welcome to Python Lab!\n")) None)
      (handleRun (initialState (lit "notebook_1700000000000_k3j9x2abc"))) []
  = [ EvSet (setGraphs []); EvSet (setCurrentGraphIndex 0);
      EvSet (setIsExecuting true); EvSet (setWaitingForInput false);
      EvSet (setOutput (lit "Executing...\n")); EvNow 0%N;
      EvRequest (editorRequest (initialState (lit "notebook_1700000000000_k3j9x2abc")));
      EvSettled (succeeded (lit "Welcome to Python Lab!\n"));
      EvNow 0%N; EvSet (setExecutionTime 0%N 0%N); EvRandom 100;
      EvSet (setMemoryUsed (lit "100 KB")); EvSet (setGraphs []);
      EvSet (setOutput (lit "Welcome to Python Lab!\n"));
      EvSet (setUserInput (lit "")); EvSet (setIsExecuting false);
      EvSet (setWaitingForInput false) ].
Proof. reflexivity. Qed.

(** * The claims *)

(** ** C1: demultiplexing a stdout with one artifact *)




(** ** C2: a run on a surface that is executing *)

(** C2, the code at the failing input: a code cell whose [isExecuting]
    flag is set is run again by [runNotebookCell], and so by
    [runAllCells]; a second request is sent. *)
Theorem C2_running_cell_dispatched_again :
  let cell := codeCell (lit "2") (lit "print(1)") (Some true) in
  let st := notebook [cell] in
  NotebookCell.isExecuting cell = Some true
  /\ requests (run (always (succeeded (lit "1\n")) None)
                   (runNotebookCell st (lit "2")) [])
     = [cellRequest st cell (lit "")]
  /\ requests (run (always (succeeded (lit "1\n")) None) (runAllCells st) [])
     = [cellRequest st cell (lit "")].
Proof. repeat split; reflexivity. Qed.

(** ** C3: which requests carry the session id *)


(** ** C4: the input gate of the editor *)

(** C4.  On an editor surface that is not executing: when the source
    has at least one input call site and the supplied input is blank,
    no request is sent, [waitingForInput] is set and the output names
    the number of inputs; when the source has no input call site, the
    request is sent at once, whatever the supplied input. *)
Theorem C4_input_gate (w : World) (st : State) (h : list Event) (st0 : State) :
  isExecuting st = false ->
  let inputCount := matchCount (String_match (currentCodeOf st) inputRe) in
  let tr := run w (handleRun st) h in
  (1 <= inputCount -> truthy (trim (userInput st)) = false ->
     requests tr = []
     /\ waitingForInput (replay tr st0) = true
     /\ isExecuting (replay tr st0) = isExecuting st0
     /\ output (replay tr st0)
        = [0x23F3%N] ++ lit " Your code needs " ++ ofNat inputCount
          ++ lit " input" ++ (if 1 <? inputCount then lit "s" else lit "")
          ++ lit ".\nEnter them below (one per line, or space-separated):\n")
  /\ (inputCount = 0 ->
      exists t0 o rest,
        tr = [EvSet (setGraphs []); EvSet (setCurrentGraphIndex 0);
              EvSet (setIsExecuting true); EvSet (setWaitingForInput false);
              EvSet (setOutput (lit "Executing...\n")); EvNow t0;
              EvRequest (editorRequest st); EvSettled o] ++ rest
        /\ requests rest = []).
Proof.
  intros He inputCount tr. split.
  - intros Hn Hi.
    assert (G : needsInput st = true).
    { unfold needsInput. fold inputCount. rewrite Hi.
      apply andb_true_iff. split; [now apply Nat.ltb_lt|reflexivity]. }
    unfold tr. rewrite (run_handleRun_waiting w st h He G).
    repeat split; reflexivity.
  - intros Hn. unfold tr.
    destruct (run_handleRun_dispatch w st h He) as (t0 & o & h' & ->).
    + unfold needsInput. fold inputCount. now rewrite Hn.
    + exists t0, o, (run w (handleRun_settled t0 o) h'). split; [reflexivity|].
      apply handleRun_settled_requests.
Qed.

(** Two input call sites and no input: the surface waits and says so. *)
Lemma C4_input_gate_witness :
  isExecuting (editing (lit "a = input()\nb = input()")) = false
  /\ requests (run (always (succeeded (lit "")) None)
                   (handleRun (editing (lit "a = input()\nb = input()"))) [])
     = []
  /\ output (replay (run (always (succeeded (lit "")) None)
                         (handleRun (editing (lit "a = input()\nb = input()"))) [])
                    (editing (lit "a = input()\nb = input()")))
     = [0x23F3%N]
       ++ lit " Your code needs 2 inputs.\nEnter them below (one per line, or space-separated):\n".
Proof.
  split; [reflexivity|].
  destruct (C4_input_gate (always (succeeded (lit "")) None)
              (editing (lit "a = input()\nb = input()")) []
              (editing (lit "a = input()\nb = input()")) eq_refl)
    as [H _].
  destruct H as (H1 & _ & _ & H2); [vm_compute; lia|reflexivity|].
  split; [exact H1|exact H2].
Defined.

(** ** C5: running all cells *)

(** C5, as amended.  For a notebook whose cells have distinct ids, the
    trace of [runAllCells] is the concatenation of one block per code
    cell, in the order of the cells and with nothing for a markdown
    cell.  A block is one attempt: either exactly one request for that
    cell, carrying its content and the notebook id and settled before
    anything else is sent, or, when the cell has an input call site and
    the prompt is cancelled, no request at all; every block ends with
    the wait of 300 ms.  This holds however the requests settle. *)
Theorem C5_run_all_in_order (w : World) (st : State) (h : list Event) :
  NoDup (map NotebookCell.id (notebookCells st)) ->
  exists blocks,
    run w (runAllCells st) h = concat blocks
    /\ Forall2 (attempt st) (filter isCode (notebookCells st)) blocks.
Proof.
  intros Hnd. apply run_runAllCells_loop.
  intros c Hc. now apply findCell_In.
Qed.

(** Two code cells around a markdown cell, every request failing. *)
Lemma C5_run_all_in_order_witness :
  NoDup (map NotebookCell.id (notebookCells (notebook threeCells)))
  /\ exists blocks,
       run (always (failed (lit "ZeroDivisionError: division by zero")) None)
           (runAllCells (notebook threeCells)) []
       = concat blocks
       /\ Forall2 (attempt (notebook threeCells))
                  (filter isCode (notebookCells (notebook threeCells))) blocks.
Proof.
  assert (H : NoDup (map NotebookCell.id (notebookCells (notebook threeCells)))).
  { repeat constructor; simpl; intuition discriminate. }
  split; [exact H|].
  exact (C5_run_all_in_order
           (always (failed (lit "ZeroDivisionError: division by zero")) None)
           (notebook threeCells) [] H).
Defined.

(** C5, counterexample: a notebook of one code cell that reads input;
    the prompt is cancelled and run-all sends no request. *)
Lemma C5_cancelled_prompt_sends_nothing :
  filter isCode (notebookCells (notebook [codeCell (lit "2") (lit "name = input()") None]))
  = [codeCell (lit "2") (lit "name = input()") None]
  /\ requests (run (always (succeeded (lit "")) None)
                   (runAllCells (notebook [codeCell (lit "2") (lit "name = input()") None]))
                   [])
     = [].
Proof. split; reflexivity. Qed.

(** ** C6: the in-flight flag after a dispatch *)

(** What one attempt does when nothing else writes in between.
    Whatever the outcome of the awaited request, the code that follows
    it in [handleRun] leaves [isExecuting] false; a run of [handleRun]
    that sent a request ends with [isExecuting] false; a run of
    [runNotebookCell] that sent a request, replayed alone, ends with the
    cell's [isExecuting] set to false. *)
Lemma flag_cleared_alone (w : World) (st : State) (h : list Event) (st0 : State) :
  (forall t0 o h',
     isExecuting (replay (run w (handleRun_settled t0 o) h') st0) = false)
  /\ (requests (run w (handleRun st) h) <> [] ->
      isExecuting (replay (run w (handleRun st) h) st0) = false)
  /\ (forall id,
        requests (run w (runNotebookCell st id) h) <> [] ->
        exists cell,
          findCell (notebookCells (replay (run w (runNotebookCell st id) h) st0)) id
          = Some cell
          /\ NotebookCell.isExecuting cell = Some false).
Proof.
  split; [intros; apply handleRun_settled_clears|split].
  - destruct (isExecuting st) eqn:He.
    + rewrite run_handleRun_executing by exact He. intros H. now contradiction H.
    + destruct (needsInput st) eqn:Hn.
      * rewrite run_handleRun_waiting by assumption. intros H. now contradiction H.
      * destruct (run_handleRun_dispatch w st h He Hn) as (t0 & o & h' & ->).
        intros _. rewrite replay_app. apply handleRun_settled_clears.
  - intros id.
    destruct (findCell (notebookCells st) id) as [cell|] eqn:Hf.
    + destruct (NotebookCell.type cell) eqn:Ht.
      * destruct (run_runNotebookCell w st id h cell Hf Ht)
          as [(_ & o & text & -> & _)|[(_ & input & o & text & -> & _)|(_ & ->)]];
          intros H; try (now contradiction H);
          eexists; (split; [cbn; apply findCell_updateCell;
                            [reflexivity|exact Hf]|reflexivity]).
      * rewrite run_runNotebookCell_skip; [intros H; now contradiction H|now rewrite Hf].
    + rewrite run_runNotebookCell_skip; [intros H; now contradiction H|now rewrite Hf].
Qed.

(** C6, the code at the failing input: cell 1 of three cells is run,
    and cell 3 is run while the request of cell 1 is in flight.  Both
    requests settle and both attempts complete, cell 1 first.  The
    completion of cell 3 writes the cells of the render it was started
    in, in which cell 1 was executing: cell 1 is left with
    [isExecuting] true, although its own attempt had cleared it. *)
Theorem C6_overlapping_runs_leave_cell_executing :
  let w := always (succeeded (lit "ok\n")) None in
  let st := notebook threeCells in
  let tr := overlapping w st (lit "1") (lit "3") in
  let executing := fun tr' =>
    map NotebookCell.isExecuting (notebookCells (replay tr' st)) in
  map (fun req => code req) (requests tr) = [lit "print(1 / 0)"; lit "print(2)"]
  /\ settlements tr = [succeeded (lit "ok\n"); succeeded (lit "ok\n")]
  /\ executing (firstn 2 tr) = [Some true; None; None]
  /\ executing (firstn 4 tr) = [Some true; None; Some true]
  /\ executing (firstn 6 tr) = [Some false; None; None]
  /\ executing tr = [Some true; None; Some false].
Proof. repeat split; reflexivity. Qed.

(** ** C7: a stdout without a well-formed wrapper *)

(** C7.  A text in which no well-formed wrapper occurs is returned as
    it is, with no artifact; demultiplexing it again changes nothing;
    and the success branch of [handleRun] displays such a non-empty
    stdout unchanged with an empty graph list.  [demultiplex] is a
    total function: there is no error to raise. *)
Theorem C7_no_wrapper_unchanged (t : jsstring) :
  ~ hasWrapper t ->
  demultiplex t = (t, [])
  /\ demultiplex (fst (demultiplex t)) = demultiplex t
  /\ (forall w h st0 result,
        stdout result = t -> t <> [] ->
        let st' := replay (run w (handleRun_success result) h) st0 in
        output st' = t /\ graphs st' = []).
Proof.
  intros H.
  assert (D : demultiplex t = (t, []))
    by (apply demultiplex_none; now apply graphRe_none).
  split; [exact D|split].
  - now rewrite D.
  - intros w h st0 result E Hne st'.
    destruct (handleRun_success_shows w result h st0) as [Ho Hg].
    assert (T : orElse (stdout result) (lit "Success (no output)") = t)
      by (rewrite E; destruct t; [congruence|reflexivity]).
    rewrite T, D in Ho, Hg. auto.
Qed.

(** A begin marker without an end marker. *)
Lemma C7_no_wrapper_unchanged_witness :
  ~ hasWrapper (lit "x = 1\n__GRAPH_0__iVBORw0KGgo")
  /\ demultiplex (lit "x = 1\n__GRAPH_0__iVBORw0KGgo")
     = (lit "x = 1\n__GRAPH_0__iVBORw0KGgo", []).
Proof.
  assert (H : ~ hasWrapper (lit "x = 1\n__GRAPH_0__iVBORw0KGgo"))
    by (apply no_end_marker; reflexivity).
  split; [exact H|].
  exact (proj1 (C7_no_wrapper_unchanged _ H)).
Defined.

(** ** C8: the messages of the failure kinds *)




(** ** C9: the output of a notebook cell *)

(** C9.  When the request of a cell run resolves with success, the
    output of the cell is the stdout as it came, and the run touches
    neither [graphs] nor the editor's [output]. *)
Theorem C9_cell_output_verbatim (w : World) (st : State) (id : jsstring)
    (h : list Event) (st0 : State) (result : CodeExecutionResponse) :
  let tr := run w (runNotebookCell st id) h in
  In (EvSettled (Resolved result)) tr ->
  success result = true ->
  (exists cell,
     findCell (notebookCells (replay tr st0)) id = Some cell
     /\ NotebookCell.output cell = Some (stdout result))
  /\ graphs (replay tr st0) = graphs st0
  /\ output (replay tr st0) = output st0.
Proof.
  intros tr Hin Hs. unfold tr in *.
  destruct (findCell (notebookCells st) id) as [cell|] eqn:Hf.
  - destruct (NotebookCell.type cell) eqn:Ht.
    + destruct (run_runNotebookCell w st id h cell Hf Ht)
        as [(_ & o & text & E & Hx)|[(_ & input & o & text & E & Hx)|(_ & E)]];
        rewrite E in *; simpl in Hin;
        repeat (destruct Hin as [Hin|Hin]; try discriminate); try contradiction;
        injection Hin as ->; rewrite (Hx result eq_refl);
        (split; [|split; reflexivity]);
        eexists; (split; [cbn; apply findCell_updateCell; [reflexivity|exact Hf]|]);
        unfold cellOutputOf; now rewrite Hs.
    + rewrite run_runNotebookCell_skip in Hin; [contradiction|now rewrite Hf].
  - rewrite run_runNotebookCell_skip in Hin; [contradiction|now rewrite Hf].
Qed.

(** A stdout that carries a wrapped artifact. *)
Lemma C9_cell_output_verbatim_witness :
  exists cell,
    findCell
      (notebookCells
         (replay (run (always (succeeded (lit "plot\n__GRAPH_0__XYZ__GRAPH_END__\n")) None)
                      (runNotebookCell
                         (notebook [codeCell (lit "2") (lit "plt.show()") None])
                         (lit "2")) [])
                 (notebook [codeCell (lit "2") (lit "plt.show()") None])))
      (lit "2")
    = Some cell
    /\ NotebookCell.output cell = Some (lit "plot\n__GRAPH_0__XYZ__GRAPH_END__\n").
Proof.
  refine (proj1 (C9_cell_output_verbatim
            (always (succeeded (lit "plot\n__GRAPH_0__XYZ__GRAPH_END__\n")) None)
            (notebook [codeCell (lit "2") (lit "plt.show()") None]) (lit "2") []
            (notebook [codeCell (lit "2") (lit "plt.show()") None])
            {| success := true;
               stdout := lit "plot\n__GRAPH_0__XYZ__GRAPH_END__\n";
               stderr := lit "" |} _ _)).
  - simpl. auto.
  - reflexivity.
Defined.

(** ** C10: an empty stdout *)

(** C10.  When the request of an editor run resolves with success and
    an empty stdout, the text handed to the demultiplexer is the
    placeholder, and the placeholder is what is displayed, with no
    graph. *)
Theorem C10_empty_stdout_placeholder (w : World) (t0 : timestamp)
    (h : list Event) (st0 : State) (err : jsstring) :
  let result := {| success := true; stdout := lit ""; stderr := err |} in
  let st' := replay (run w (handleRun_settled t0 (Resolved result)) h) st0 in
  output st' = lit "Success (no output)"
  /\ graphs st' = []
  /\ orElse (stdout result) (lit "Success (no output)") = lit "Success (no output)"
  /\ (output st', graphs st') = demultiplex (lit "Success (no output)").
Proof. vm_compute. auto. Qed.

(** * Further properties of the component *)

(** ** Lists by index *)

Lemma findIndex_None {A} (p : A -> bool) l :
  findIndex p l = None -> Forall (fun x => p x = false) l.
Proof.
  induction l as [|x l IH]; simpl; [constructor|].
  destruct (p x) eqn:E; [discriminate|].
  destruct (findIndex p l); [discriminate|]. intros _. constructor; auto.
Qed.

Lemma findIndex_Some {A} (p : A -> bool) l i :
  findIndex p l = Some i ->
  exists pre x post,
    l = pre ++ x :: post /\ length pre = i /\ p x = true
    /\ Forall (fun y => p y = false) pre.
Proof.
  revert i; induction l as [|x l IH]; simpl; intros i; [discriminate|].
  destruct (p x) eqn:E.
  - intros H. injection H as <-. now exists [], x, l.
  - destruct (findIndex p l) as [j|]; [|discriminate].
    intros H. injection H as <-.
    destruct (IH j eq_refl) as (pre & y & post & -> & Hl & Hy & Hpre).
    exists (x :: pre), y, post. repeat split; simpl; auto.
Qed.

Lemma findIndex_nth {A} (p : A -> bool) (l : list A) i :
  findIndex p l = Some i ->
  exists x, nth_error l i = Some x /\ p x = true.
Proof.
  intros H. apply findIndex_Some in H as (pre & x & post & -> & <- & Hx & _).
  exists x. split; [|exact Hx].
  now rewrite nth_error_app2, Nat.sub_diag by lia.
Qed.

Lemma spliceInsert_app {A} (a b : list A) x :
  spliceInsert (length a) x (a ++ b) = a ++ x :: b.
Proof.
  unfold spliceInsert.
  rewrite firstn_app, firstn_all, Nat.sub_diag, skipn_app, skipn_all, Nat.sub_diag.
  simpl. now rewrite app_nil_r.
Qed.

Lemma removeIndex_length {A} (l : list A) : forall i,
  i < length l -> length (removeIndex i l) = length l - 1.
Proof.
  induction l as [|x l IH]; intros i H; simpl in *; [lia|].
  destruct i as [|i]; simpl; [lia|]. rewrite IH by lia. lia.
Qed.

Lemma removeIndex_nth {A} (l : list A) : forall i j,
  nth_error (removeIndex i l) j
  = if j <? i then nth_error l j else nth_error l (S j).
Proof.
  induction l as [|x l IH]; intros i j.
  - destruct i; cbn [removeIndex]; destruct (j <? _); destruct j; reflexivity.
  - destruct i as [|i]; [reflexivity|].
    destruct j as [|j]; [reflexivity|]. simpl removeIndex.
    change (S j <? S i) with (j <? i). simpl nth_error at 1. rewrite IH.
    now destruct (j <? i).
Qed.

Lemma mapIndex_nth {A} (f : A -> A) (l : list A) : forall i j,
  nth_error (mapIndex i f l) j
  = if j =? i then option_map f (nth_error l j) else nth_error l j.
Proof.
  induction l as [|x l IH]; intros i j.
  - destruct i; cbn [mapIndex]; destruct (j =? _); destruct j; reflexivity.
  - destruct i as [|i], j as [|j]; try reflexivity. simpl. apply IH.
Qed.

Lemma mapIndex_length {A} (f : A -> A) (l : list A) : forall i,
  length (mapIndex i f l) = length l.
Proof.
  induction l as [|x l IH]; intros [|i]; simpl; auto.
Qed.

Lemma NoDup_insert {A} (pre post : list A) x :
  NoDup (pre ++ post) -> ~ In x (pre ++ post) -> NoDup (pre ++ x :: post).
Proof.
  intros Hnd Hx. apply (Permutation_NoDup (l := x :: pre ++ post)).
  - apply Permutation_middle.
  - now constructor.
Qed.

Lemma filter_all {A} (p : A -> bool) l :
  Forall (fun x => p x = true) l -> filter p l = l.
Proof.
  induction 1 as [|x l Hx _ IH]; simpl; [reflexivity|]. now rewrite Hx, IH.
Qed.

(** ** The editor surface *)

Lemma files_applySetter u st :
  files (applySetter u st) = files st
  /\ activeFileIndex (applySetter u st) = activeFileIndex st.
Proof. now destruct u. Qed.

Lemma files_replay tr : forall st,
  files (replay tr st) = files st
  /\ activeFileIndex (replay tr st) = activeFileIndex st.
Proof.
  induction tr as [|e tr IH]; intros st; [now split|].
  destruct e; simpl; try apply IH.
  destruct (IH (applySetter u st)) as [-> ->]. apply files_applySetter.
Qed.

Lemma currentCodeOf_replay tr st : currentCodeOf (replay tr st) = currentCodeOf st.
Proof.
  unfold currentCodeOf. destruct (files_replay tr st) as [-> ->]. reflexivity.
Qed.

Lemma settlements_app tr1 tr2 :
  settlements (tr1 ++ tr2) = settlements tr1 ++ settlements tr2.
Proof.
  induction tr1 as [|e tr1 IH]; [reflexivity|].
  destruct e; simpl; now rewrite IH.
Qed.

Lemma handleRun_settled_settlements w t0 o h :
  settlements (run w (handleRun_settled t0 o) h) = [].
Proof.
  unfold handleRun_settled. destruct o as [result|error]; [|reflexivity].
  destruct (success result); [|reflexivity].
  unfold handleRun_success. now destruct (String_match _ graphRe).
Qed.

(** The input gate asks whether the text [input(] occurs in the code. *)
Lemma needsInput_includes st :
  needsInput st
  = includes (currentCodeOf st) (lit "input(") && negb (truthy (trim (userInput st))).
Proof.
  unfold needsInput. f_equal.
  destruct (includes (currentCodeOf st) (lit "input(")) eqn:E.
  - apply Nat.ltb_lt.
    destruct (matchCount (String_match (currentCodeOf st) inputRe)) eqn:M; [|lia].
    apply inputCount_zero_iff in M. congruence.
  - apply inputCount_zero_iff in E. now rewrite E.
Qed.

Lemma requests_handleRun_iff w st h :
  requests (run w (handleRun st) h)
  = if isExecuting st
       || (includes (currentCodeOf st) (lit "input(")
           && negb (truthy (trim (userInput st))))
    then []
    else [ {| code := currentCodeOf st; stdin := Some (userInput st);
              notebook_id := None |} ].
Proof.
  rewrite <- needsInput_includes.
  destruct (isExecuting st) eqn:He; simpl.
  - now rewrite run_handleRun_executing.
  - destruct (needsInput st) eqn:Hn.
    + now rewrite run_handleRun_waiting.
    + destruct (run_handleRun_dispatch w st h He Hn) as (t0 & o & h' & ->).
      rewrite requests_app, handleRun_settled_requests. reflexivity.
Qed.

(** The state in which [handleRun_settled] leaves the component. *)
Lemma replay_handleRun_settled w t0 o h st0 :
  let st' := replay (run w (handleRun_settled t0 o) h) st0 in
  let d := fun result =>
    demultiplex (orElse (stdout result) (lit "Success (no output)")) in
  notebookCells st' = notebookCells st0
  /\ isExecuting st' = false
  /\ waitingForInput st' = false
  /\ match o with
     | Resolved result =>
         userInput st' = lit ""
         /\ if success result
            then output st' = fst (d result) /\ graphs st' = snd (d result)
                 /\ (currentGraphIndex st' = 0
                     \/ (currentGraphIndex st' = currentGraphIndex st0
                         /\ snd (d result) = []))
            else output st' = lit "Error:\n" ++ stderr result
                 /\ graphs st' = graphs st0
                 /\ currentGraphIndex st' = currentGraphIndex st0
     | Rejected error =>
         userInput st' = userInput st0
         /\ output st' = lit "Error:\n" ++ handleRun_errorMsg error
         /\ graphs st' = []
         /\ currentGraphIndex st' = currentGraphIndex st0
     end.
Proof.
  destruct o as [result|error]; unfold handleRun_settled; [|now cbn].
  destruct (success result) eqn:S; [|now cbn].
  unfold handleRun_success, demultiplex.
  destruct (String_match _ graphRe); cbn; repeat split; auto.
Qed.

(** A run that passes both gates: its settlement, and the state it
    leaves as the state [handleRun_settled] leaves after the dispatch. *)
Lemma replay_handleRun_dispatch w st h st0 :
  isExecuting st = false -> needsInput st = false ->
  exists t0 o h',
    settlements (run w (handleRun st) h) = [o]
    /\ replay (run w (handleRun st) h) st0
       = replay (run w (handleRun_settled t0 o) h') (dispatched st0).
Proof.
  intros He Hn.
  destruct (run_handleRun_dispatch w st h He Hn) as (t0 & o & h' & E).
  exists t0, o, h'. rewrite E. split.
  - rewrite settlements_app, handleRun_settled_settlements. reflexivity.
  - rewrite replay_app. reflexivity.
Qed.

Lemma replay_handleRun w st h :
  isExecuting st = false -> needsInput st = false ->
  let tr := run w (handleRun st) h in
  let st' := replay tr st in
  exists o,
    settlements tr = [o]
    /\ isExecuting st' = false
    /\ waitingForInput st' = false
    /\ currentCodeOf st' = currentCodeOf st
    /\ userInput st' = match o with
                       | Resolved _ => lit ""
                       | Rejected _ => userInput st
                       end.
Proof.
  intros He Hn tr st'. unfold st', tr.
  destruct (replay_handleRun_dispatch w st h st He Hn) as (t0 & o & h' & Hs & ->).
  exists o. split; [exact Hs|]. rewrite currentCodeOf_replay.
  destruct (replay_handleRun_settled w t0 o h' (dispatched st)) as (_ & H1 & H2 & H3).
  repeat split; auto. destruct o; [tauto|]. destruct H3 as [-> _]. reflexivity.
Qed.

Lemma handleRun_graphs w st h st0 :
  isExecuting st = false ->
  let tr := run w (handleRun st) h in
  let st' := replay tr st0 in
  currentGraphIndex st' = 0
  /\ if needsInput st
     then settlements tr = [] /\ graphs st' = []
     else exists o,
            settlements tr = [o]
            /\ graphs st'
               = match o with
                 | Resolved result =>
                     if success result
                     then snd (demultiplex
                                 (orElse (stdout result) (lit "Success (no output)")))
                     else []
                 | Rejected _ => []
                 end.
Proof.
  intros He tr st'. destruct (needsInput st) eqn:Hn.
  - unfold st', tr. rewrite (run_handleRun_waiting w st h He Hn). cbn. auto.
  - destruct (replay_handleRun_dispatch w st h st0 He Hn)
      as (t0 & o & h' & Hs & E).
    unfold st'. fold tr in Hs, E. rewrite E.
    destruct (replay_handleRun_settled w t0 o h' (dispatched st0))
      as (_ & _ & _ & H).
    destruct o as [result|error].
    + destruct H as [_ H]. destruct (success result) eqn:S.
      * destruct H as (_ & Hg & [Hi|[Hi Hnil]]).
        -- split; [exact Hi|]. exists (Resolved result). rewrite S. auto.
        -- split; [rewrite Hi; reflexivity|]. exists (Resolved result).
           rewrite S. auto.
      * destruct H as (_ & Hg & Hi). rewrite Hg, Hi.
        split; [reflexivity|]. exists (Resolved result). rewrite S. auto.
    + destruct H as (_ & _ & Hg & Hi). rewrite Hg, Hi.
      split; [reflexivity|]. exists (Rejected error). auto.
Qed.

Lemma graphIndexValid_handleRun w st h st0 :
  graphIndexValid st0 -> graphIndexValid (replay (run w (handleRun st) h) st0).
Proof.
  intros V. destruct (isExecuting st) eqn:He.
  - now rewrite run_handleRun_executing.
  - destruct (handleRun_graphs w st h st0 He) as [Hi Hg].
    unfold graphIndexValid. rewrite Hi.
    destruct (graphs (replay (run w (handleRun st) h) st0)); [now left|].
    right. simpl. lia.
Qed.

Lemma notebookCells_handleRun w st h st0 :
  notebookCells (replay (run w (handleRun st) h) st0) = notebookCells st0.
Proof.
  destruct (isExecuting st) eqn:He.
  - now rewrite run_handleRun_executing.
  - destruct (needsInput st) eqn:Hn.
    + now rewrite run_handleRun_waiting.
    + destruct (replay_handleRun_dispatch w st h st0 He Hn) as (t0 & o & h' & _ & ->).
      now destruct (replay_handleRun_settled w t0 o h' (dispatched st0)) as (-> & _).
Qed.

(** X1.  Whether a run of the editor sends a request is decided by
    three things only: the surface is not executing, and the text
    [input(] does not occur in the code of the active file or the typed
    input is not blank.  The request then carries that code and the
    typed input as it is, not trimmed; otherwise nothing is sent. *)
Theorem handleRun_sends_iff (w : World) (st : State) (h : list Event) :
  requests (run w (handleRun st) h)
  = if isExecuting st
       || (includes (currentCodeOf st) (lit "input(")
           && negb (truthy (trim (userInput st))))
    then []
    else [ {| code := currentCodeOf st; stdin := Some (userInput st);
              notebook_id := None |} ].
Proof. apply requests_handleRun_iff. Qed.

(** X2.  Submitting input.  A run that stops at the input gate sends
    nothing and leaves the surface waiting; when the user then types a
    text that is not blank and runs again, exactly one request is sent,
    with the same code and the typed text as its stdin, and the surface
    is neither waiting nor executing when that run is over. *)
Theorem submit_sends_typed_input (w w' : World) (st : State) (h h' : list Event)
    (v : jsstring) :
  isExecuting st = false ->
  needsInput st = true ->
  truthy (trim v) = true ->
  let waiting := replay (run w (handleRun st) h) st in
  let typed := afterSync (input_onChange v) waiting in
  let tr := run w' (handleRun typed) h' in
  waitingForInput waiting = true
  /\ requests (run w (handleRun st) h) = []
  /\ requests tr
     = [ {| code := currentCodeOf st; stdin := Some v; notebook_id := None |} ]
  /\ waitingForInput (replay tr typed) = false
  /\ isExecuting (replay tr typed) = false.
Proof.
  intros He Hn Hv waiting typed tr.
  assert (W : run w (handleRun st) h
              = [EvSet (setGraphs []); EvSet (setCurrentGraphIndex 0);
                 EvSet (setWaitingForInput true);
                 EvSet (setOutput
                   (waitingMessage (matchCount (String_match (currentCodeOf st) inputRe))))])
    by now apply run_handleRun_waiting.
  assert (Hc : currentCodeOf typed = currentCodeOf st).
  { unfold typed, waiting, afterSync. now rewrite !currentCodeOf_replay. }
  assert (Hu : userInput typed = v) by (unfold typed, waiting; now rewrite W).
  assert (He' : isExecuting typed = false)
    by (unfold typed, waiting; rewrite W; exact He).
  assert (Hn' : needsInput typed = false).
  { rewrite needsInput_includes, Hu, Hv. apply andb_false_r. }
  split; [unfold waiting; now rewrite W|].
  split; [now rewrite W|].
  split.
  - unfold tr. rewrite requests_handleRun_iff, <- needsInput_includes, He', Hn', Hc, Hu.
    reflexivity.
  - destruct (replay_handleRun w' typed h' He' Hn') as (o & _ & H1 & H2 & _).
    split; assumption.
Qed.

(** A program that reads one value, and the value [5]. *)
Lemma submit_sends_typed_input_witness :
  isExecuting (editing (lit "x = input()")) = false
  /\ needsInput (editing (lit "x = input()")) = true
  /\ truthy (trim (lit "5")) = true
  /\ requests
       (run (always (succeeded (lit "")) None)
          (handleRun
             (afterSync (input_onChange (lit "5"))
                (replay (run (always (succeeded (lit "")) None)
                           (handleRun (editing (lit "x = input()"))) [])
                        (editing (lit "x = input()")))))
          [])
     = [ {| code := lit "x = input()"; stdin := Some (lit "5"); notebook_id := None |} ].
Proof.
  split; [reflexivity|]. split; [reflexivity|]. split; [reflexivity|].
  exact (proj1 (proj2 (proj2
    (submit_sends_typed_input (always (succeeded (lit "")) None)
       (always (succeeded (lit "")) None) (editing (lit "x = input()")) [] []
       (lit "5") eq_refl eq_refl eq_refl)))).
Defined.

(** X3.  What becomes of the typed input.  A run that sends its
    request has exactly one settlement.  When the request resolved, the
    typed input is cleared, so the next run of the same code sends
    nothing if the code reads input, and sends an empty stdin if it
    does not.  When the request was rejected, the typed input is kept,
    so the next run sends the same request again. *)
Theorem handleRun_input_retention (w : World) (st : State) (h : list Event) :
  isExecuting st = false ->
  needsInput st = false ->
  let tr := run w (handleRun st) h in
  let st' := replay tr st in
  exists o,
    settlements tr = [o]
    /\ match o with
       | Resolved _ =>
           userInput st' = lit ""
           /\ forall w' h',
                requests (run w' (handleRun st') h')
                = if includes (currentCodeOf st) (lit "input(") then []
                  else [ {| code := currentCodeOf st; stdin := Some (lit "");
                            notebook_id := None |} ]
       | Rejected _ =>
           userInput st' = userInput st
           /\ forall w' h',
                requests (run w' (handleRun st') h') = requests tr
       end.
Proof.
  intros He Hn tr st'.
  destruct (replay_handleRun w st h He Hn) as (o & Hs & He' & _ & Hc & Hu).
  fold tr st' in Hs, He', Hc, Hu. exists o. split; [exact Hs|].
  assert (R : requests tr = [editorRequest st]).
  { unfold tr. rewrite requests_handleRun_iff, <- needsInput_includes, He, Hn.
    reflexivity. }
  destruct o as [result|error]; (split; [exact Hu|]); intros w' h';
    rewrite requests_handleRun_iff, He', Hc, Hu.
  - cbn. now rewrite andb_true_r.
  - rewrite R, <- needsInput_includes, Hn. reflexivity.
Qed.

(** A rejected request: the run has one settlement. *)
Lemma handleRun_input_retention_witness :
  isExecuting (editing (lit "print(1)")) = false
  /\ needsInput (editing (lit "print(1)")) = false
  /\ exists o,
       settlements (run (always (thrown (lit "ERR_NETWORK") (lit "Network Error")) None)
                      (handleRun (editing (lit "print(1)"))) [])
       = [o].
Proof.
  split; [reflexivity|]. split; [reflexivity|].
  destruct (handleRun_input_retention
              (always (thrown (lit "ERR_NETWORK") (lit "Network Error")) None)
              (editing (lit "print(1)")) [] eq_refl eq_refl) as (o & Hs & _).
  exists o. exact Hs.
Defined.

(** X4.  The graphs of an editor run.  Every run that is not refused
    because the surface is executing leaves the graph index at 0.  A
    run that stops at the input gate has no settlement and leaves the
    graph list empty.  A run that sends its request has one settlement:
    when the request resolved with success the graph list is the
    artifact list of that response, and in every other case it is
    empty.  This holds whatever the state was when the run wrote to
    it. *)
Theorem handleRun_resets_graphs (w : World) (st : State) (h : list Event)
    (st0 : State) :
  isExecuting st = false ->
  let tr := run w (handleRun st) h in
  let st' := replay tr st0 in
  currentGraphIndex st' = 0
  /\ if needsInput st
     then settlements tr = [] /\ graphs st' = []
     else exists o,
            settlements tr = [o]
            /\ graphs st'
               = match o with
                 | Resolved result =>
                     if success result
                     then snd (demultiplex
                                 (orElse (stdout result) (lit "Success (no output)")))
                     else []
                 | Rejected _ => []
                 end.
Proof. apply handleRun_graphs. Qed.

(** Two graphs on display, the second shown, and a run whose response
    carries one artifact: the one new graph is shown. *)
Lemma handleRun_resets_graphs_witness :
  let st := applySetter (setCurrentGraphIndex 1) twoGraphs in
  let tr := run (always (succeeded (lit "A\n__GRAPH_0__XYZ__GRAPH_END__\nB")) None)
                (handleRun st) [] in
  isExecuting st = false
  /\ currentGraphIndex (replay tr st) = 0
  /\ graphs (replay tr st) = [lit "XYZ"].
Proof.
  intros st tr. split; [reflexivity|].
  destruct (handleRun_resets_graphs
              (always (succeeded (lit "A\n__GRAPH_0__XYZ__GRAPH_END__\nB")) None)
              st [] st eq_refl) as [Hi Hg].
  split; [exact Hi|].
  change (needsInput st) with false in Hg. cbv iota in Hg.
  destruct Hg as (o & Hs & Hg).
  change (settlements _) with [succeeded (lit "A\n__GRAPH_0__XYZ__GRAPH_END__\nB")] in Hs.
  injection Hs as <-. exact Hg.
Defined.

(** ** The artifacts of a response *)

Lemma matcher_base64Re_inv s rest caps :
  matcher false (source base64Re) s [] (fun s' caps' => Some (s', caps'))
  = Some (rest, caps) ->
  exists ordinal payload,
    s = wrapper ordinal payload ++ rest
    /\ caps = [payload]
    /\ isOrdinal ordinal = true /\ singleLine payload.
Proof.
  cbn [source base64Re matcher].
  destruct (stripPrefix (lit "__GRAPH_") s) as [s1|] eqn:E1; [|discriminate].
  apply stripPrefix_Some in E1. subst s.
  destruct s1 as [|d s1]; [discriminate|].
  destruct (accepts false Esc_d d) eqn:Hd; [|discriminate].
  cbn [repeatAtom]. intros E2.
  apply repeatGreedy_sound in E2 as (ds & s2 & -> & Hds & E3).
  destruct (stripPrefix (lit "__") s2) as [s3|] eqn:E4; [|discriminate].
  apply stripPrefix_Some in E4. subst s2.
  destruct s3 as [|c s3]; [discriminate|].
  destruct (accepts false Dot c) eqn:Hc; [|discriminate].
  apply repeatLazy_sound in E3 as (p & s4 & -> & Hp & E5).
  destruct (stripPrefix (lit "__GRAPH_END__") s4) as [s5|] eqn:E6; [|discriminate].
  apply stripPrefix_Some in E6. subst s4.
  change (c :: p ++ lit "__GRAPH_END__" ++ s5)
    with ((c :: p) ++ lit "__GRAPH_END__" ++ s5) in E5.
  rewrite firstn_minus in E5. injection E5 as <- <-.
  exists (d :: ds), (c :: p). repeat split.
  - unfold wrapper. now rewrite <- !app_assoc.
  - unfold isOrdinal. simpl. apply andb_true_iff. split; [exact Hd|].
    now apply forallb_Forall.
  - discriminate.
  - constructor.
    + simpl in Hc. now apply negb_true_iff in Hc.
    + eapply Forall_impl; [|exact Hp]. intros x Hx. simpl in Hx.
      now apply negb_true_iff in Hx.
Qed.

(** A match of the inner expression is a wrapper, and its first group
    is the payload of that wrapper. *)
Lemma matchHere_base64Re_inv s m caps :
  matchHere base64Re s = Some (m, caps) ->
  exists ordinal payload rest,
    s = wrapper ordinal payload ++ rest
    /\ m = wrapper ordinal payload /\ caps = [payload]
    /\ isOrdinal ordinal = true /\ singleLine payload.
Proof.
  unfold matchHere. change (dotAll base64Re) with false.
  destruct (matcher _ _ _ _ _) as [[rest caps']|] eqn:E; [|discriminate].
  intros H. injection H as <- <-.
  apply matcher_base64Re_inv in E as (ordinal & payload & -> & -> & Ho & Hp).
  exists ordinal, payload, rest. now rewrite firstn_minus.
Qed.

Lemma exec_inv r s m caps :
  exec r s = Some (m, caps) ->
  exists pre rest, s = pre ++ rest /\ matchHere r rest = Some (m, caps).
Proof.
  induction s as [|c s IH]; cbn [exec].
  - destruct (matchHere r []) as [x|] eqn:E; [|discriminate].
    intros H. injection H as ->. now exists [], [].
  - destruct (matchHere r (c :: s)) as [x|] eqn:E.
    + intros H. injection H as ->. now exists [], (c :: s).
    + intros H. destruct (IH H) as (pre & rest & -> & Hm).
      now exists (c :: pre), rest.
Qed.

(** Every match of a global expression is a part of the text. *)
Lemma scan_In r s : forall skip m,
  In m (scan r s skip) -> exists pre post, s = pre ++ m ++ post.
Proof.
  induction s as [|c s IH]; intros skip m.
  - destruct skip; cbn [scan]; [|contradiction].
    destruct (matchHere r []) as [[m' caps]|] eqn:E; [|contradiction].
    intros [<-|[]]. apply matchHere_sound in E as (rest & E & _).
    now exists [], rest.
  - destruct skip as [|n]; cbn [scan]; [|intros H].
    + destruct (matchHere r (c :: s)) as [[m' caps]|] eqn:E.
      * intros [<-|H].
        -- apply matchHere_sound in E as (rest & E & _). now exists [], rest.
        -- destruct (IH _ _ H) as (pre & post & ->). now exists (c :: pre), post.
      * intros H. destruct (IH _ _ H) as (pre & post & ->). now exists (c :: pre), post.
    + destruct (IH _ _ H) as (pre & post & ->). now exists (c :: pre), post.
Qed.

Lemma extractGraphs_fold ms : forall acc,
  let out := fold_left
    (fun extractedGraphs match_ =>
       match String_match match_ base64Re with
       | Some base64Match => extractedGraphs ++ [nth 1 base64Match []]
       | None => extractedGraphs
       end) ms acc in
  length out <= length acc + length ms
  /\ forall g, In g out ->
       In g acc
       \/ exists m whole, In m ms /\ String_match m base64Re = Some [whole; g].
Proof.
  induction ms as [|m ms IH]; intros acc; cbn [fold_left].
  - split; [simpl; lia|auto].
  - destruct (String_match m base64Re) as [bm|] eqn:E.
    + destruct (IH (acc ++ [nth 1 bm []])) as [L H]. split.
      * rewrite length_app in L. simpl in *. lia.
      * intros g Hg. destruct (H g Hg) as [Ha|(m' & whole & Hin & Hm)].
        -- apply in_app_or in Ha as [Ha|[<-|[]]]; [now left|]. right.
           unfold String_match in E. cbn [global base64Re] in E. fold base64Re in E.
           destruct (exec base64Re m) as [[whole caps]|] eqn:X; [|discriminate].
           injection E as <-.
           pose proof X as X'. apply exec_inv in X' as (pre & rest & _ & X').
           apply matchHere_base64Re_inv in X' as (o & p & _ & _ & _ & -> & _).
           exists m, whole. split; [now left|].
           unfold String_match. cbn [global base64Re]. fold base64Re.
           rewrite X. reflexivity.
        -- right. exists m', whole. split; [now right|exact Hm].
    + destruct (IH acc) as [L H]. split; [simpl; lia|].
      intros g Hg. destruct (H g Hg) as [Ha|(m' & whole & Hin & Hm)]; [now left|].
      right. exists m', whole. split; [now right|exact Hm].
Qed.

(** X5.  The artifacts of any text.  Every artifact the demultiplexer
    returns is the payload of a wrapper
    [__GRAPH_<ordinal>__<payload>__GRAPH_END__] that occurs in the text,
    with a non-empty decimal ordinal; the payload is not empty and has
    no line terminator.  There are at most as many artifacts as matches
    of the outer expression. *)
Theorem artifacts_are_payloads (formattedOutput : jsstring) :
  let artifacts := snd (demultiplex formattedOutput) in
  length artifacts <= matchCount (String_match formattedOutput graphRe)
  /\ forall g, In g artifacts -> singleLine g /\ wraps formattedOutput g.
Proof.
  unfold demultiplex.
  destruct (String_match formattedOutput graphRe) as [ms|] eqn:E; cbn [snd matchCount].
  2:{ split; [simpl; lia|contradiction]. }
  destruct (extractGraphs_fold ms []) as [L H]. fold (extractGraphs ms) in L, H.
  split; [exact L|]. intros g Hg.
  destruct (H g Hg) as [[]|(m & whole & Hin & Hm)].
  unfold String_match in E, Hm. cbn [global graphRe base64Re] in E, Hm.
  fold graphRe in E. fold base64Re in Hm.
  destruct (scan graphRe formattedOutput 0) as [|m0 ms0] eqn:Sc; [discriminate|].
  injection E as <-. rewrite <- Sc in Hin.
  apply scan_In in Hin as (pre & post & ->).
  destruct (exec base64Re m) as [[whole' caps]|] eqn:X; [|discriminate].
  injection Hm as -> ->.
  apply exec_inv in X as (a & b & -> & X).
  apply matchHere_base64Re_inv in X as (o & p & rest & -> & _ & C & Ho & Hp).
  injection C as <-. split; [exact Hp|].
  exists (pre ++ a), o, (rest ++ post). split; [|exact Ho].
  now rewrite <- !app_assoc.
Qed.

(** ** The terminal *)

(** X6.  Clearing the terminal empties the output and the typed input
    and ends the wait for input, but keeps the graphs, the graph index,
    the executing flag and the notebook.  The typed input being gone,
    the next run sends nothing when the code reads input, and an empty
    stdin when it does not. *)
Theorem clearOutput_discards_input (st : State) :
  let st' := afterSync clearOutput st in
  output st' = lit "" /\ userInput st' = lit "" /\ waitingForInput st' = false
  /\ graphs st' = graphs st
  /\ currentGraphIndex st' = currentGraphIndex st
  /\ isExecuting st' = isExecuting st
  /\ notebookCells st' = notebookCells st
  /\ forall w h,
       requests (run w (handleRun st') h)
       = if isExecuting st || includes (currentCodeOf st) (lit "input(") then []
         else [ {| code := currentCodeOf st; stdin := Some (lit "");
                   notebook_id := None |} ].
Proof.
  intros st'. repeat split. intros w h. rewrite requests_handleRun_iff.
  unfold st', afterSync. rewrite currentCodeOf_replay. cbn.
  now rewrite andb_true_r.
Qed.

(** X7.  The graph on display.  When [graphs[currentGraphIndex]]
    exists whenever there is a graph, it still does after a run of the
    editor (however it ends), after clearing the terminal and after
    either of the two graph buttons.  Away from the last graph the
    next button moves the index forward by one, and the previous
    button then moves it back. *)
Theorem graph_index_stays_valid (st : State) :
  graphIndexValid st ->
  (forall w h, graphIndexValid (replay (run w (handleRun st) h) st))
  /\ graphIndexValid (afterSync clearOutput st)
  /\ graphIndexValid (afterSync (previousGraph st) st)
  /\ graphIndexValid (afterSync (nextGraph st) st)
  /\ (S (currentGraphIndex st) < length (graphs st) ->
      let next := afterSync (nextGraph st) st in
      currentGraphIndex next = S (currentGraphIndex st)
      /\ currentGraphIndex (afterSync (previousGraph next) next)
         = currentGraphIndex st).
Proof.
  intros V. split; [intros w h; now apply graphIndexValid_handleRun|].
  split; [exact V|]. unfold afterSync, previousGraph, nextGraph, graphIndexValid in *.
  split; [|split].
  - destruct ((1 <? length (graphs st)) && negb (currentGraphIndex st =? 0)) eqn:E;
      [|exact V].
    cbn. destruct V as [V|V]; [now left|right]. lia.
  - destruct ((1 <? length (graphs st))
              && negb (currentGraphIndex st =? length (graphs st) - 1)) eqn:E;
      [|exact V].
    cbn. destruct V as [V|V]; [now left|right]. lia.
  - intros H.
    assert (E1 : (1 <? length (graphs st)) = true) by (apply Nat.ltb_lt; lia).
    assert (E2 : (currentGraphIndex st =? length (graphs st) - 1) = false)
      by (apply Nat.eqb_neq; lia).
    rewrite E1, E2. cbn [andb negb run call replay applySetter currentGraphIndex graphs].
    replace (Nat.min (length (graphs st) - 1) (currentGraphIndex st + 1))
      with (S (currentGraphIndex st)) by lia.
    split; [reflexivity|]. rewrite E1. cbn. lia.
Qed.

(** Two graphs, the first on display: the next button shows the
    second. *)
Lemma graph_index_stays_valid_witness :
  graphIndexValid twoGraphs
  /\ graphIndexValid (afterSync (nextGraph twoGraphs) twoGraphs)
  /\ currentGraphIndex (afterSync (nextGraph twoGraphs) twoGraphs) = 1.
Proof.
  assert (V : graphIndexValid twoGraphs) by (right; repeat constructor).
  split; [exact V|].
  split; [exact (proj1 (proj2 (proj2 (proj2 (graph_index_stays_valid twoGraphs V)))))|].
  reflexivity.
Defined.

(** ** The two surfaces *)

Lemma writesOnly_app P tr1 tr2 :
  writesOnly P tr1 -> writesOnly P tr2 -> writesOnly P (tr1 ++ tr2).
Proof. intros H1 H2. apply Forall_app. now split. Qed.

Lemma rewritesCell_with_isExecuting_output cells id e o :
  rewritesCell cells
    (updateCell cells id (fun c => NotebookCell.with_isExecuting_output c e o)).
Proof. exists id. eexists. split; [reflexivity|]. intros c. now repeat split. Qed.

Lemma rewritesCell_with_output cells id o :
  rewritesCell cells (updateCell cells id (fun c => NotebookCell.with_output c o)).
Proof. exists id. eexists. split; [reflexivity|]. intros c. now repeat split. Qed.

Lemma writesOnly_runNotebookCell w st id h :
  writesOnly (rewritesCell (notebookCells st)) (run w (runNotebookCell st id) h).
Proof.
  destruct (findCell (notebookCells st) id) as [cell|] eqn:Hf.
  - destruct (NotebookCell.type cell) eqn:Ht.
    + destruct (run_runNotebookCell w st id h cell Hf Ht)
        as [(_ & o & text & -> & _)|[(_ & input & o & text & -> & _)|(_ & ->)]];
        repeat constructor;
        auto using rewritesCell_with_isExecuting_output, rewritesCell_with_output.
    + rewrite run_runNotebookCell_skip; [constructor|now rewrite Hf].
  - rewrite run_runNotebookCell_skip; [constructor|now rewrite Hf].
Qed.

Lemma writesOnly_runAllCells_loop w st cells : forall h,
  writesOnly (rewritesCell (notebookCells st)) (run w (runAllCells_loop st cells) h).
Proof.
  induction cells as [|cell cells IH]; intros h; [constructor|].
  cbn [runAllCells_loop]. rewrite run_seq. apply writesOnly_app; [|apply IH].
  destruct (NotebookCell.type cell); [|constructor].
  rewrite run_seq. apply writesOnly_app; [apply writesOnly_runNotebookCell|].
  repeat constructor.
Qed.

Lemma replay_writesOnly (P : list NotebookCell.t -> Prop) tr : forall st0,
  writesOnly P tr ->
  (notebookCells (replay tr st0) = notebookCells st0
   \/ P (notebookCells (replay tr st0)))
  /\ sameTerminal (replay tr st0) st0.
Proof.
  induction tr as [|e tr IH]; intros st0 H.
  - simpl. unfold sameTerminal. repeat split; auto.
  - inversion H as [|? ? He Htr]; subst.
    destruct e as [u| | | | | | |]; simpl; try (apply IH; exact Htr).
    destruct u; try contradiction.
    destruct (IH (applySetter (setNotebookCells v) st0) Htr) as ([Hc|Hc] & Hs).
    + split; [|exact Hs]. right. rewrite Hc. exact He.
    + split; [now right|exact Hs].
Qed.

Lemma rewritesCell_shape cells v :
  rewritesCell cells v ->
  map NotebookCell.id v = map NotebookCell.id cells
  /\ map NotebookCell.type v = map NotebookCell.type cells
  /\ map NotebookCell.content v = map NotebookCell.content cells.
Proof.
  intros (id & f & -> & Hf). unfold updateCell. rewrite !map_map.
  repeat split; apply map_ext; intros c; destruct (eqb _ _); auto; apply Hf.
Qed.

Lemma rewritesCell_others cells v :
  rewritesCell cells v ->
  exists id, forall i c0,
    nth_error cells i = Some c0 ->
    eqb (NotebookCell.id c0) id = false ->
    nth_error v i = Some c0.
Proof.
  intros (id & f & -> & Hf). exists id. intros i c0 Hi Hne.
  unfold updateCell. rewrite nth_error_map, Hi. simpl. now rewrite Hne.
Qed.

(** X8.  The two surfaces do not write to each other.  A run of the
    editor leaves the notebook cells as they are; a run of a cell and a
    run of all cells leave the output, the executing flag, the typed
    input, the wait for input, the run time, the memory figure, the
    graphs and the graph index of the editor as they are. *)
Theorem surfaces_do_not_interfere (w : World) (st : State) (h : list Event)
    (st0 : State) :
  notebookCells (replay (run w (handleRun st) h) st0) = notebookCells st0
  /\ (forall id, sameTerminal (replay (run w (runNotebookCell st id) h) st0) st0)
  /\ sameTerminal (replay (run w (runAllCells st) h) st0) st0.
Proof.
  split; [apply notebookCells_handleRun|]. split.
  - intros id. apply (replay_writesOnly (rewritesCell (notebookCells st))).
    apply writesOnly_runNotebookCell.
  - apply (replay_writesOnly (rewritesCell (notebookCells st))).
    apply writesOnly_runAllCells_loop.
Qed.

(** ** The notebook *)

Lemma updateCell_id cells id f :
  (forall c, NotebookCell.id (f c) = NotebookCell.id c) ->
  map NotebookCell.id (updateCell cells id f) = map NotebookCell.id cells.
Proof.
  intros Hf. unfold updateCell. rewrite map_map. apply map_ext.
  intros c. destruct (eqb _ _); auto.
Qed.

Lemma updateCell_absent cells id f :
  findCell cells id = None -> updateCell cells id f = cells.
Proof.
  unfold findCell, updateCell. induction cells as [|c cells IH]; simpl; [reflexivity|].
  destruct (eqb (NotebookCell.id c) id); [discriminate|].
  intros H. now rewrite IH.
Qed.

Lemma findCell_updateCell_other cells id f other :
  (forall c, NotebookCell.id (f c) = NotebookCell.id c) ->
  eqb id other = false ->
  findCell (updateCell cells id f) other = findCell cells other.
Proof.
  intros Hf Hne. unfold findCell, updateCell.
  induction cells as [|c cells IH]; simpl; [reflexivity|].
  destruct (eqb (NotebookCell.id c) id) eqn:E.
  - rewrite Hf. apply jsstring_eqb_eq in E. rewrite E, Hne. exact IH.
  - destruct (eqb (NotebookCell.id c) other); [reflexivity|exact IH].
Qed.

(** Where [addNotebookCell] puts the new cell. *)
Lemma addNotebookCell_cases (st : State) (now : N) (type : CellType)
    (afterId : option jsstring) :
  let cells := notebookCells st in
  let newCell := newCellOf now type in
  let cells' := notebookCells (afterSync (addNotebookCell st now type afterId) st) in
  (present afterId = false /\ cells' = cells ++ [newCell])
  \/ (present afterId = true
      /\ Forall (fun c => eqb (NotebookCell.id c) (valueOf afterId) = false) cells
      /\ cells' = newCell :: cells)
  \/ (present afterId = true
      /\ exists pre c post,
           cells = pre ++ c :: post
           /\ NotebookCell.id c = valueOf afterId
           /\ Forall (fun x => eqb (NotebookCell.id x) (valueOf afterId) = false) pre
           /\ cells' = pre ++ c :: newCell :: post).
Proof.
  intros cells newCell cells'. unfold cells', afterSync, addNotebookCell.
  fold cells. fold newCell.
  destruct (present afterId) eqn:Hp.
  - right.
    destruct (findIndex (fun c => eqb (NotebookCell.id c) (valueOf afterId)) cells)
      as [i|] eqn:E.
    + right. split; [reflexivity|].
      apply findIndex_Some in E as (pre & c & post & Hc & Hl & Hid & Hpre).
      exists pre, c, post. repeat split; auto.
      * now apply jsstring_eqb_eq.
      * change (spliceInsert (succIndex (Some i)) newCell cells
                = pre ++ c :: newCell :: post).
        rewrite Hc. cbn [succIndex].
        replace (S i) with (length (pre ++ [c])) by (rewrite length_app; simpl; lia).
        replace (pre ++ c :: post) with ((pre ++ [c]) ++ post)
          by (now rewrite <- app_assoc).
        rewrite spliceInsert_app. now rewrite <- app_assoc.
    + left. split; [reflexivity|]. split; [now apply findIndex_None|reflexivity].
  - left. split; reflexivity.
Qed.

(** X9.  Where a new cell goes.  Without an [afterId] (or with an
    empty one) the new cell is appended.  With an [afterId] that no
    cell has, it is put before all cells.  Otherwise it is put right
    after the first cell that has this id, and nothing else moves. *)
Theorem addNotebookCell_placement (st : State) (now : N) (type : CellType)
    (afterId : option jsstring) :
  let cells := notebookCells st in
  let newCell := newCellOf now type in
  let cells' := notebookCells (afterSync (addNotebookCell st now type afterId) st) in
  (present afterId = false /\ cells' = cells ++ [newCell])
  \/ (present afterId = true
      /\ Forall (fun c => eqb (NotebookCell.id c) (valueOf afterId) = false) cells
      /\ cells' = newCell :: cells)
  \/ (present afterId = true
      /\ exists pre c post,
           cells = pre ++ c :: post
           /\ NotebookCell.id c = valueOf afterId
           /\ Forall (fun x => eqb (NotebookCell.id x) (valueOf afterId) = false) pre
           /\ cells' = pre ++ c :: newCell :: post).
Proof. apply addNotebookCell_cases. Qed.

(** X10.  Adding a cell keeps the ids of the cells distinct, provided
    the reading of the clock, written in decimal, is not yet the id of
    a cell. *)
Theorem addNotebookCell_keeps_ids_distinct (st : State) (now : N)
    (type : CellType) (afterId : option jsstring) :
  NoDup (map NotebookCell.id (notebookCells st)) ->
  ~ In (ofN now) (map NotebookCell.id (notebookCells st)) ->
  NoDup (map NotebookCell.id
           (notebookCells (afterSync (addNotebookCell st now type afterId) st))).
Proof.
  intros Hnd Hnew.
  destruct (addNotebookCell_cases st now type afterId)
    as [[_ ->]|[(_ & _ & ->)|(_ & pre & c & post & E & _ & _ & ->)]].
  - rewrite map_app. simpl.
    rewrite <- (app_nil_r (map NotebookCell.id (notebookCells st))) in Hnd, Hnew.
    now apply NoDup_insert.
  - simpl. now constructor.
  - rewrite E in Hnd, Hnew.
    replace (pre ++ c :: newCellOf now type :: post)
      with ((pre ++ [c]) ++ newCellOf now type :: post)
      by (now rewrite <- app_assoc).
    replace (pre ++ c :: post) with ((pre ++ [c]) ++ post) in Hnd, Hnew
      by (now rewrite <- app_assoc).
    rewrite map_app in *. simpl. now apply NoDup_insert.
Qed.

Lemma threeCells_ids : map NotebookCell.id threeCells = [lit "1"; lit "2"; lit "3"].
Proof. reflexivity. Defined.

Lemma threeCells_NoDup : NoDup (map NotebookCell.id threeCells).
Proof.
  rewrite threeCells_ids.
  repeat constructor; simpl; intuition discriminate.
Defined.

(** A code cell added after cell 1 of three cells, at the clock
    reading 1700000000000. *)
Lemma addNotebookCell_keeps_ids_distinct_witness :
  NoDup (map NotebookCell.id (notebookCells (notebook threeCells)))
  /\ ~ In (ofN 1700000000000) (map NotebookCell.id (notebookCells (notebook threeCells)))
  /\ NoDup (map NotebookCell.id
              (notebookCells
                 (afterSync (addNotebookCell (notebook threeCells) 1700000000000
                               code_cell (Some (lit "1")))
                            (notebook threeCells)))).
Proof.
  assert (F : ~ In (ofN 1700000000000)
                   (map NotebookCell.id (notebookCells (notebook threeCells)))).
  { intros H. vm_compute in H. intuition discriminate. }
  split; [exact threeCells_NoDup|]. split; [exact F|].
  exact (addNotebookCell_keeps_ids_distinct (notebook threeCells) 1700000000000
           code_cell (Some (lit "1")) threeCells_NoDup F).
Defined.

(** X11.  Editing a cell.  [updateNotebookCell] keeps the ids, types,
    outputs and executing flags of all cells and the order of the
    cells.  The cell found under the id afterwards is the cell found
    under it before with the new content; the cell found under any
    other id is the same as before; and with an id that no cell has,
    the notebook is not changed. *)
Theorem updateNotebookCell_changes_one_content (st : State) (id content : jsstring) :
  let cells := notebookCells st in
  let cells' := notebookCells (afterSync (updateNotebookCell st id content) st) in
  map NotebookCell.id cells' = map NotebookCell.id cells
  /\ map NotebookCell.type cells' = map NotebookCell.type cells
  /\ map NotebookCell.output cells' = map NotebookCell.output cells
  /\ map NotebookCell.isExecuting cells' = map NotebookCell.isExecuting cells
  /\ findCell cells' id
     = option_map (fun c => with_content c content) (findCell cells id)
  /\ (forall other, eqb id other = false -> findCell cells' other = findCell cells other)
  /\ (findCell cells id = None -> cells' = cells).
Proof.
  intros cells cells'.
  assert (E : cells' = updateCell cells id (fun c => with_content c content))
    by reflexivity.
  rewrite E. repeat split.
  - now apply updateCell_id.
  - unfold updateCell. rewrite map_map. apply map_ext.
    intros c. now destruct (eqb _ _).
  - unfold updateCell. rewrite map_map. apply map_ext.
    intros c. now destruct (eqb _ _).
  - unfold updateCell. rewrite map_map. apply map_ext.
    intros c. now destruct (eqb _ _).
  - destruct (findCell cells id) as [c|] eqn:F; simpl.
    + now apply (findCell_updateCell cells id (fun c => with_content c content) c).
    + now rewrite updateCell_absent.
  - intros other Hne. now apply findCell_updateCell_other.
  - intros F. now apply updateCell_absent.
Qed.

Lemma filter_other_id cells id :
  ~ In id (map NotebookCell.id cells) ->
  filter (fun cell => negb (eqb (NotebookCell.id cell) id)) cells = cells.
Proof.
  intros H. apply filter_all. apply Forall_forall. intros c Hc.
  apply negb_true_iff. destruct (eqb (NotebookCell.id c) id) eqn:E; [|reflexivity].
  apply jsstring_eqb_eq in E. exfalso. apply H. rewrite <- E. now apply in_map.
Qed.

Lemma filter_unique_id cells id :
  NoDup (map NotebookCell.id cells) ->
  In id (map NotebookCell.id cells) ->
  exists pre c post,
    cells = pre ++ c :: post /\ NotebookCell.id c = id
    /\ filter (fun cell => negb (eqb (NotebookCell.id cell) id)) cells = pre ++ post.
Proof.
  induction cells as [|x cells IH]; intros Hnd Hin; [contradiction|].
  inversion Hnd as [|? ? Hx Hnd']; subst. simpl.
  destruct (eqb (NotebookCell.id x) id) eqn:E.
  - apply jsstring_eqb_eq in E. exists [], x, cells. repeat split; auto.
    simpl. apply filter_other_id. now rewrite <- E.
  - destruct Hin as [Hin|Hin].
    + rewrite Hin, jsstring_eqb_refl in E. discriminate.
    + destruct (IH Hnd' Hin) as (pre & c & post & -> & Hc & Hf).
      exists (x :: pre), c, post. repeat split; auto. simpl. now rewrite Hf.
Qed.

(** X12.  Deleting a cell.  In a notebook that is not empty and whose
    cells have distinct ids, [deleteNotebookCell] never leaves the
    notebook empty and keeps the ids distinct: either nothing changes
    (the only cell is never deleted, and an id that no cell has deletes
    nothing), or there are at least two cells and exactly the cell
    with that id is removed, the others staying in order. *)
Theorem deleteNotebookCell_removes_one (st : State) (id : jsstring) :
  NoDup (map NotebookCell.id (notebookCells st)) ->
  notebookCells st <> [] ->
  let cells := notebookCells st in
  let cells' := notebookCells (afterSync (deleteNotebookCell st id) st) in
  cells' <> []
  /\ NoDup (map NotebookCell.id cells')
  /\ (cells' = cells
      \/ exists pre c post,
           cells = pre ++ c :: post /\ NotebookCell.id c = id
           /\ 2 <= length cells /\ cells' = pre ++ post).
Proof.
  intros Hnd Hne cells cells'. unfold cells', afterSync, deleteNotebookCell.
  fold cells. destruct (length cells =? 1) eqn:L.
  - simpl. fold cells. repeat split; auto.
  - apply Nat.eqb_neq in L. cbn [call run replay applySetter notebookCells].
    destruct (in_dec (list_eq_dec N.eq_dec) id (map NotebookCell.id cells)) as [Hin|Hout].
    + destruct (filter_unique_id cells id Hnd Hin) as (pre & c & post & E & Hc & ->).
      assert (Hlen : 2 <= length cells).
      { destruct cells as [|a [|b l]]; simpl in *; try lia; congruence. }
      repeat split.
      * intros Hnil. fold cells in E. rewrite E, length_app in Hlen. simpl in Hlen.
        apply (f_equal (@length _)) in Hnil. rewrite length_app in Hnil.
        simpl in Hnil. lia.
      * fold cells in Hnd. rewrite E, map_app in Hnd. simpl in Hnd.
        rewrite map_app. now apply NoDup_remove_1 in Hnd.
      * right. exists pre, c, post. auto.
    + rewrite (filter_other_id cells id Hout). repeat split; auto.
Qed.

(** Deleting cell 2 of three cells. *)
Lemma deleteNotebookCell_removes_one_witness :
  NoDup (map NotebookCell.id (notebookCells (notebook threeCells)))
  /\ notebookCells (notebook threeCells) <> []
  /\ notebookCells (afterSync (deleteNotebookCell (notebook threeCells) (lit "2"))
                              (notebook threeCells))
     <> [].
Proof.
  assert (Hne : notebookCells (notebook threeCells) <> []) by discriminate.
  split; [exact threeCells_NoDup|]. split; [exact Hne|].
  exact (proj1 (deleteNotebookCell_removes_one (notebook threeCells) (lit "2")
                  threeCells_NoDup Hne)).
Defined.

(** X13.  What a cell run writes.  Every state write of a run of a
    cell, and of a run of all cells, is a [setNotebookCells] whose value
    is the cell list of the render the handler was created in, with
    the cells of one id changed by a function that keeps id, type,
    content and editing flag. *)
Theorem cell_runs_rewrite_one_cell (w : World) (st : State) (h : list Event) :
  (forall id, writesOnly (rewritesCell (notebookCells st))
                         (run w (runNotebookCell st id) h))
  /\ writesOnly (rewritesCell (notebookCells st)) (run w (runAllCells st) h).
Proof.
  split; [intros id; apply writesOnly_runNotebookCell|].
  apply writesOnly_runAllCells_loop.
Qed.

Lemma request_split_unique b1 : forall b2 r1 r2 t1 t2,
  b1 ++ EvRequest r1 :: t1 = b2 ++ EvRequest r2 :: t2 ->
  requests b1 = [] -> requests b2 = [] ->
  b1 = b2 /\ r1 = r2 /\ t1 = t2.
Proof.
  induction b1 as [|e b1 IH]; intros [|e2 b2] r1 r2 t1 t2 H H1 H2; simpl in H.
  - injection H as -> ->. auto.
  - injection H as <- _. discriminate.
  - injection H as -> _. discriminate.
  - injection H as <- H.
    assert (R1 : requests b1 = []) by (destruct e; simpl in H1; congruence).
    assert (R2 : requests b2 = []) by (destruct e; simpl in H2; congruence).
    destruct (IH _ _ _ _ _ H R1 R2) as (-> & -> & ->). auto.
Qed.

(** A trace with one request splits at it in one way. *)
Lemma request_split pre r' t' before req t :
  requests pre = [] -> requests t' = [] ->
  before ++ EvRequest req :: t = pre ++ EvRequest r' :: t' ->
  before = pre /\ req = r' /\ t = t'.
Proof.
  intros Hp Ht E. apply request_split_unique; [exact E| |exact Hp].
  apply (f_equal requests) in E. rewrite !requests_app in E. cbn [requests] in E.
  rewrite Hp, Ht in E. destruct (requests before) as [|x l]; [reflexivity|].
  destruct l; discriminate.
Qed.

(** X14.  Edits made while a cell runs are lost.  Split the trace of a
    cell run at its request.  Whatever the state is when the request
    has settled, the cells after the rest of the run are the cells of
    the render the run was started in, with the cell that ran marked as
    not executing and given its output: what was written to the
    notebook during the wait is overwritten. *)
Theorem cell_completion_overwrites (w : World) (st : State) (id : jsstring)
    (h : list Event) (before rest : list Event) (req : Request) (o : Settled) :
  run w (runNotebookCell st id) h = before ++ EvRequest req :: EvSettled o :: rest ->
  exists text,
    (forall result, o = Resolved result -> text = cellOutputOf result)
    /\ forall mid,
         notebookCells (replay rest mid)
         = updateCell (notebookCells st) id
             (fun c => NotebookCell.with_isExecuting_output c false text).
Proof.
  intros E.
  destruct (findCell (notebookCells st) id) as [cell|] eqn:Hf.
  2:{ rewrite run_runNotebookCell_skip in E by now rewrite Hf.
      destruct before; discriminate. }
  destruct (NotebookCell.type cell) eqn:Ht.
  2:{ rewrite run_runNotebookCell_skip in E by now rewrite Hf.
      destruct before; discriminate. }
  destruct (run_runNotebookCell w st id h cell Hf Ht)
    as [(_ & o' & text & E' & Htext)|[(_ & input & o' & text & E' & Htext)|(_ & E')]];
    rewrite E' in E.
  - symmetry in E. apply (request_split
             [EvSet (setNotebookCells (updateCell (notebookCells st) id
                (fun c => NotebookCell.with_isExecuting_output c true (lit "Running..."))))]
             _ [EvSettled o'; EvSet (setNotebookCells (updateCell (notebookCells st) id
                (fun c => NotebookCell.with_isExecuting_output c false text)))])
      in E as (_ & _ & T); [|reflexivity|reflexivity].
    injection T as -> ->. exists text. split; [exact Htext|reflexivity].
  - symmetry in E. apply (request_split
             [EvPrompt (promptMessage
                (matchCount (String_match (NotebookCell.content cell) inputRe)))
                (Some input);
              EvSet (setNotebookCells (updateCell (notebookCells st) id
                (fun c => NotebookCell.with_isExecuting_output c true (lit "Running..."))))]
             _ [EvSettled o'; EvSet (setNotebookCells (updateCell (notebookCells st) id
                (fun c => NotebookCell.with_isExecuting_output c false text)))])
      in E as (_ & _ & T); [|reflexivity|reflexivity].
    injection T as -> ->. exists text. split; [exact Htext|reflexivity].
  - assert (R : requests (before ++ EvRequest req :: EvSettled o :: rest) = [])
      by now rewrite <- E.
    rewrite requests_app in R. cbn [requests] in R.
    destruct (requests before); discriminate.
Qed.

(** Cell 3 of three cells prints 2; while it runs, the notebook is
    emptied. *)
Lemma cell_completion_overwrites_witness :
  let tr := run (always (succeeded (lit "2\n")) None)
                (runNotebookCell (notebook threeCells) (lit "3")) [] in
  tr = firstn 1 tr
       ++ EvRequest (cellRequest (notebook threeCells)
                       (codeCell (lit "3") (lit "print(2)") None) (lit ""))
          :: EvSettled (succeeded (lit "2\n")) :: skipn 3 tr
  /\ exists text,
       (forall result, succeeded (lit "2\n") = Resolved result ->
                       text = cellOutputOf result)
       /\ forall mid,
            notebookCells (replay (skipn 3 tr) mid)
            = updateCell threeCells (lit "3")
                (fun c => NotebookCell.with_isExecuting_output c false text).
Proof.
  split; [reflexivity|].
  exact (cell_completion_overwrites (always (succeeded (lit "2\n")) None)
           (notebook threeCells) (lit "3") []
           (firstn 1 (run (always (succeeded (lit "2\n")) None)
                          (runNotebookCell (notebook threeCells) (lit "3")) []))
           (skipn 3 (run (always (succeeded (lit "2\n")) None)
                         (runNotebookCell (notebook threeCells) (lit "3")) []))
           (cellRequest (notebook threeCells)
              (codeCell (lit "3") (lit "print(2)") None) (lit ""))
           (succeeded (lit "2\n")) eq_refl).
Defined.

(** X15.  After a run of all cells, last write wins.  Either nothing
    was written to the notebook, or the cells have the ids and the
    contents of the render the run was started in, and there is one id
    such that every cell with another id is exactly as it was in that
    render: outputs that earlier cells of the run wrote are not in the
    final notebook. *)
Theorem runAllCells_last_write_wins (w : World) (st : State) (h : list Event)
    (st0 : State) :
  let snapshot := notebookCells st in
  let final := notebookCells (replay (run w (runAllCells st) h) st0) in
  final = notebookCells st0
  \/ (map NotebookCell.id final = map NotebookCell.id snapshot
      /\ map NotebookCell.content final = map NotebookCell.content snapshot
      /\ exists id, forall i c0,
           nth_error snapshot i = Some c0 ->
           eqb (NotebookCell.id c0) id = false ->
           nth_error final i = Some c0).
Proof.
  intros snapshot final.
  destruct (replay_writesOnly _ _ st0 (writesOnly_runAllCells_loop w st (notebookCells st) h))
    as ([Hc|Hc] & _); [now left|right].
  destruct (rewritesCell_shape _ _ Hc) as (H1 & _ & H3).
  repeat split; auto. now apply rewritesCell_others.
Qed.

(** X16.  The input of a cell.  A run of a code cell prompts exactly
    when the text [input(] occurs in the content of the cell.  When
    the prompt is cancelled nothing is sent; otherwise the answer is
    the stdin of the one request, as it is, blank or not.  A cell that
    does not prompt sends one request with an empty stdin. *)
Theorem cell_prompt_answer_is_stdin (w : World) (st : State) (id : jsstring)
    (h : list Event) (cell : NotebookCell.t) :
  findCell (notebookCells st) id = Some cell ->
  NotebookCell.type cell = code_cell ->
  let tr := run w (runNotebookCell st id) h in
  if includes (NotebookCell.content cell) (lit "input(")
  then exists msg,
         (In (EvPrompt msg None) tr /\ requests tr = [])
         \/ exists answer,
              In (EvPrompt msg (Some answer)) tr
              /\ requests tr = [cellRequest st cell answer]
  else (forall msg answer, ~ In (EvPrompt msg answer) tr)
       /\ requests tr = [cellRequest st cell (lit "")].
Proof.
  intros Hf Ht tr.
  destruct (run_runNotebookCell w st id h cell Hf Ht)
    as [(Hn & o & text & E & _)|[(Hn & input & o & text & E & _)|(Hn & E)]];
    fold tr in E.
  - apply inputCount_zero_iff in Hn. rewrite Hn, E. split; [|reflexivity].
    intros msg answer [H|[H|[H|[H|[]]]]]; discriminate.
  - destruct (includes _ _) eqn:I;
      [|apply inputCount_zero_iff in I; lia].
    rewrite E. eexists. right. exists input. split; [now left|reflexivity].
  - destruct (includes _ _) eqn:I;
      [|apply inputCount_zero_iff in I; lia].
    rewrite E. eexists. left. split; [now left|reflexivity].
Qed.

(** Cell 3 of three cells does not read input. *)
Lemma cell_prompt_answer_is_stdin_witness :
  findCell (notebookCells (notebook threeCells)) (lit "3")
  = Some (codeCell (lit "3") (lit "print(2)") None)
  /\ NotebookCell.type (codeCell (lit "3") (lit "print(2)") None) = code_cell
  /\ requests (run (always (succeeded (lit "2\n")) None)
                   (runNotebookCell (notebook threeCells) (lit "3")) [])
     = [cellRequest (notebook threeCells)
          (codeCell (lit "3") (lit "print(2)") None) (lit "")].
Proof.
  split; [reflexivity|]. split; [reflexivity|].
  exact (proj2 (cell_prompt_answer_is_stdin (always (succeeded (lit "2\n")) None)
                  (notebook threeCells) (lit "3") []
                  (codeCell (lit "3") (lit "print(2)") None) eq_refl eq_refl)).
Defined.

(** ** Editing a markdown cell *)

(** X22.  Editing a markdown cell.  Double-clicking the cell found
    under an id opens it for editing; after typing a text and leaving
    the box, the cell found under the id is the original cell with the
    typed text as its content and closed for editing.  The cells found
    under other ids, and the ids of all cells, are as before. *)
Theorem markdown_edit_round_trip (st : State) (id text : jsstring)
    (cell : NotebookCell.t) :
  findCell (notebookCells st) id = Some cell ->
  let s1 := afterSync (markdown_onDoubleClick st id) st in
  let s2 := afterSync (updateNotebookCell s1 id text) s1 in
  let s3 := afterSync (markdown_onBlur s2 id) s2 in
  findCell (notebookCells s1) id = Some (with_isEditing cell true)
  /\ findCell (notebookCells s3) id
     = Some (with_isEditing (with_content cell text) false)
  /\ (forall other, eqb id other = false ->
        findCell (notebookCells s3) other = findCell (notebookCells st) other)
  /\ map NotebookCell.id (notebookCells s3) = map NotebookCell.id (notebookCells st).
Proof.
  intros Hf s1 s2 s3.
  assert (E1 : notebookCells s1
               = updateCell (notebookCells st) id (fun c => with_isEditing c true))
    by reflexivity.
  assert (E2 : notebookCells s2
               = updateCell (notebookCells s1) id (fun c => with_content c text))
    by reflexivity.
  assert (E3 : notebookCells s3
               = updateCell (notebookCells s2) id (fun c => with_isEditing c false))
    by reflexivity.
  assert (F1 : findCell (notebookCells s1) id = Some (with_isEditing cell true)).
  { rewrite E1.
    now apply (findCell_updateCell _ id (fun c => with_isEditing c true) cell). }
  assert (F2 : findCell (notebookCells s2) id
               = Some (with_content (with_isEditing cell true) text)).
  { rewrite E2.
    now apply (findCell_updateCell _ id (fun c => with_content c text)
                 (with_isEditing cell true)). }
  split; [exact F1|]. split; [|split].
  - rewrite E3.
    now apply (findCell_updateCell _ id (fun c => with_isEditing c false)
                 (with_content (with_isEditing cell true) text)).
  - intros other Hne. rewrite E3, E2, E1.
    now rewrite !findCell_updateCell_other.
  - rewrite E3, E2, E1. now rewrite !updateCell_id.
Qed.

(** The markdown cell of three cells gets a new title. *)
Lemma markdown_edit_round_trip_witness :
  findCell (notebookCells (notebook threeCells)) (lit "2")
  = Some (markdownCell (lit "2") (lit "## Notes"))
  /\ findCell
       (notebookCells
          (afterSync (markdown_onDoubleClick (notebook threeCells) (lit "2"))
                     (notebook threeCells)))
       (lit "2")
     = Some (with_isEditing (markdownCell (lit "2") (lit "## Notes")) true).
Proof.
  split; [reflexivity|].
  exact (proj1 (markdown_edit_round_trip (notebook threeCells) (lit "2")
                  (lit "## Results") (markdownCell (lit "2") (lit "## Notes"))
                  eq_refl)).
Defined.

(** ** The file tabs *)

Lemma findIndex_not_In {A} (p : A -> bool) (l : list A) :
  findIndex p l = None -> forall x, In x l -> p x = false.
Proof.
  intros H x Hx. apply findIndex_None in H. rewrite Forall_forall in H. auto.
Qed.

Lemma endsWith_app (s w : jsstring) : endsWith (s ++ w) w = true.
Proof.
  unfold endsWith. rewrite length_app. apply andb_true_iff. split.
  - apply Nat.leb_le. lia.
  - rewrite Nat.add_sub, skipn_app, Nat.sub_diag, skipn_all. simpl.
    apply jsstring_eqb_refl.
Qed.

Lemma fileNameOf_endsWith n : endsWith (fileNameOf n) (lit ".py") = true.
Proof.
  unfold fileNameOf. destruct (endsWith n (lit ".py")) eqn:E; [exact E|].
  apply endsWith_app.
Qed.

Lemma orElse_empty (s : jsstring) : orElse s (lit "") = s.
Proof. now destruct s. Qed.

Lemma mapIndex_name newContent (l : list File) : forall i,
  map name (mapIndex i (fun file => {| name := name file; file_content := newContent |}) l)
  = map name l.
Proof.
  induction l as [|f l IH]; intros [|i]; simpl; try reflexivity.
  now rewrite IH.
Qed.

(** The text of the active file after [updateCurrentFileContent]. *)
Lemma currentCodeOf_updateCurrentFileContent st t newContent :
  Tabs.activeFileIndex t < length (Tabs.files t) ->
  currentCodeOf (withTabs st (updateCurrentFileContent newContent t)) = newContent.
Proof.
  intros Ha. unfold currentCodeOf.
  cbn [files activeFileIndex withTabs updateCurrentFileContent
       Tabs.files Tabs.activeFileIndex].
  rewrite mapIndex_nth, Nat.eqb_refl.
  destruct (nth_error (Tabs.files t) (Tabs.activeFileIndex t)) as [f|] eqn:E.
  - cbn. apply orElse_empty.
  - apply nth_error_None in E. lia.
Qed.

Lemma editor_onChange_textOf value t :
  editor_onChange value t = updateCurrentFileContent (textOf value) t.
Proof.
  unfold editor_onChange. destruct value as [[|c s]|]; reflexivity.
Qed.

(** X17.  Closing a tab.  With both indices in range, [closeFile]
    never closes the only tab and keeps the active index in range.
    With more than one tab it removes exactly the file at the index;
    when another tab than the active one is closed the same file stays
    active, and when the active tab is closed its left neighbour
    becomes active, or the new first tab if it was the first. *)
Theorem closeFile_keeps_active_file (index : nat) (t : Tabs.t) :
  index < length (Tabs.files t) ->
  Tabs.activeFileIndex t < length (Tabs.files t) ->
  let files := Tabs.files t in
  let active := Tabs.activeFileIndex t in
  let t' := closeFile index t in
  Tabs.files t' <> []
  /\ Tabs.activeFileIndex t' < length (Tabs.files t')
  /\ (length files = 1 -> t' = t)
  /\ (length files <> 1 ->
      length (Tabs.files t') = length files - 1
      /\ (forall j, nth_error (Tabs.files t') j
                    = if j <? index then nth_error files j
                      else nth_error files (S j))
      /\ (index <> active ->
          nth_error (Tabs.files t') (Tabs.activeFileIndex t')
          = nth_error files active)
      /\ (index = active ->
          nth_error (Tabs.files t') (Tabs.activeFileIndex t')
          = nth_error files (if active =? 0 then 1 else active - 1))).
Proof.
  intros Hi Ha files active t'. unfold t', closeFile. fold files active.
  destruct (length files =? 1) eqn:L.
  - apply Nat.eqb_eq in L. split; [|split; [exact Ha|split; [reflexivity|]]].
    + unfold files in L. intros E. rewrite E in L. discriminate.
    + intros H. contradiction.
  - apply Nat.eqb_neq in L. cbn [Tabs.files Tabs.activeFileIndex].
    assert (Len : length (removeIndex index files) = length files - 1)
      by now apply removeIndex_length.
    assert (Act : (if (index <=? active) && (0 <? active) then active - 1
                   else if (active =? index) && (S index =? length files)
                        then index - 1 else active)
                  = if (index <=? active) && (0 <? active) then active - 1 else active).
    { destruct ((index <=? active) && (0 <? active)) eqn:E; [reflexivity|].
      destruct ((active =? index) && (S index =? length files)) eqn:F; [|reflexivity].
      apply andb_true_iff in F as [F1 F2].
      apply Nat.eqb_eq in F1, F2. subst index.
      rewrite Nat.leb_refl in E. simpl in E. apply Nat.ltb_ge in E. lia. }
    rewrite Act. unfold files, active in *.
    split; [|split; [|split; [intros H; contradiction|intros _]]].
    + intros E. rewrite E in Len. simpl in Len. lia.
    + rewrite Len.
      destruct (Nat.leb_spec index (Tabs.activeFileIndex t));
        destruct (Nat.ltb_spec 0 (Tabs.activeFileIndex t)); simpl; lia.
    + split; [exact Len|]. split; [intros j; apply removeIndex_nth|].
      rewrite removeIndex_nth. split; intros H.
      * destruct (Nat.leb_spec index (Tabs.activeFileIndex t));
          destruct (Nat.ltb_spec 0 (Tabs.activeFileIndex t)); cbn [andb].
        -- destruct (Nat.ltb_spec (Tabs.activeFileIndex t - 1) index); [lia|].
           f_equal. lia.
        -- lia.
        -- destruct (Nat.ltb_spec (Tabs.activeFileIndex t) index); [reflexivity|lia].
        -- destruct (Nat.ltb_spec (Tabs.activeFileIndex t) index); [reflexivity|lia].
      * subst index. rewrite Nat.leb_refl. cbn [andb].
        destruct (Nat.eqb_spec (Tabs.activeFileIndex t) 0) as [E|E].
        -- rewrite E. reflexivity.
        -- destruct (Nat.ltb_spec 0 (Tabs.activeFileIndex t)); [|lia].
           destruct (Nat.ltb_spec (Tabs.activeFileIndex t - 1) (Tabs.activeFileIndex t));
             [reflexivity|lia].
Qed.

(** Closing the first of two tabs while the second is active. *)
Lemma closeFile_keeps_active_file_witness :
  0 < length (Tabs.files twoTabs)
  /\ Tabs.activeFileIndex twoTabs < length (Tabs.files twoTabs)
  /\ Tabs.activeFileIndex (closeFile 0 twoTabs)
     < length (Tabs.files (closeFile 0 twoTabs)).
Proof.
  assert (H0 : 0 < length (Tabs.files twoTabs)) by (apply Nat.ltb_lt; reflexivity).
  assert (H1 : Tabs.activeFileIndex twoTabs < length (Tabs.files twoTabs))
    by (apply Nat.ltb_lt; reflexivity).
  split; [exact H0|]. split; [exact H1|].
  exact (proj1 (proj2 (closeFile_keeps_active_file 0 twoTabs H0 H1))).
Defined.

(** X18.  Creating a file.  With a blank name [createNewFile] does
    nothing.  Otherwise the name of the file is the typed name, with
    [.py] appended unless it ends with it; afterwards the active file
    has that name, the dialog is closed and its name box is empty.  If
    a file of that name exists the files are not changed; if none does,
    one file of that name is appended.  Distinct names stay
    distinct. *)
Theorem createNewFile_opens_named_file (created : jsstring) (t : Tabs.t) :
  let t' := createNewFile created t in
  let fileName := fileNameOf (Tabs.newFileName t) in
  if truthy (trim (Tabs.newFileName t)) then
    endsWith fileName (lit ".py") = true
    /\ (exists f, nth_error (Tabs.files t') (Tabs.activeFileIndex t') = Some f
                  /\ name f = fileName)
    /\ (In fileName (map name (Tabs.files t)) -> Tabs.files t' = Tabs.files t)
    /\ (~ In fileName (map name (Tabs.files t)) ->
        exists f, Tabs.files t' = Tabs.files t ++ [f] /\ name f = fileName)
    /\ (NoDup (map name (Tabs.files t)) -> NoDup (map name (Tabs.files t')))
    /\ Tabs.newFileName t' = lit "" /\ Tabs.showFileDialog t' = false
  else t' = t.
Proof.
  intros t' fileName. unfold t', createNewFile.
  destruct (truthy (trim (Tabs.newFileName t))) eqn:B; [|reflexivity].
  cbn [negb]. fold (fileNameOf (Tabs.newFileName t)). fold fileName.
  split; [apply fileNameOf_endsWith|].
  destruct (findIndex (fun f => eqb (name f) fileName) (Tabs.files t)) as [i|] eqn:F;
    cbn [Tabs.files Tabs.activeFileIndex Tabs.newFileName Tabs.showFileDialog].
  - destruct (findIndex_nth _ _ _ F) as (f & Hf & Hn).
    apply jsstring_eqb_eq in Hn.
    assert (I : In fileName (map name (Tabs.files t))).
    { rewrite <- Hn. apply in_map. eapply nth_error_In. exact Hf. }
    split; [now exists f|]. split; [reflexivity|].
    split; [intros H; contradiction|]. split; [auto|]. split; reflexivity.
  - assert (I : ~ In fileName (map name (Tabs.files t))).
    { intros H. apply in_map_iff in H as (f & Hn & Hin).
      pose proof (findIndex_not_In _ _ F f Hin) as E. cbv beta in E.
      rewrite Hn, jsstring_eqb_refl in E. discriminate. }
    split.
    { eexists. split; [rewrite nth_error_app2, Nat.sub_diag by lia|]; reflexivity. }
    split; [intros H; contradiction|].
    split; [intros _; eexists; split; reflexivity|].
    split; [|split; reflexivity].
    intros Hnd. rewrite map_app. cbn [map name].
    apply (Permutation_NoDup (l := fileName :: map name (Tabs.files t))).
    + apply Permutation_cons_append.
    + now constructor.
Qed.

(** X19.  What is typed is what is run.  With the active index in
    range, after the editor has reported a text through [onChange] the
    code of the active file is that text (the empty text when the
    editor reports none), the names of all files and the contents of
    the other files are as before, and a run sends no other code than
    that text. *)
Theorem typed_text_is_run (w : World) (st : State) (h : list Event)
    (t : Tabs.t) (value : option jsstring) :
  Tabs.activeFileIndex t < length (Tabs.files t) ->
  let t' := editor_onChange value t in
  currentCodeOf (withTabs st t') = textOf value
  /\ map name (Tabs.files t') = map name (Tabs.files t)
  /\ (forall j, j <> Tabs.activeFileIndex t ->
        nth_error (Tabs.files t') j = nth_error (Tabs.files t) j)
  /\ Forall (fun req => code req = textOf value)
            (requests (run w (handleRun (withTabs st t')) h)).
Proof.
  intros Ha t'. unfold t'. rewrite editor_onChange_textOf.
  pose proof (currentCodeOf_updateCurrentFileContent st t (textOf value) Ha) as C.
  split; [exact C|]. split; [|split].
  - apply mapIndex_name.
  - intros j Hj. cbn [updateCurrentFileContent Tabs.files].
    rewrite mapIndex_nth. apply Nat.eqb_neq in Hj. now rewrite Hj.
  - rewrite requests_handleRun_iff, C.
    destruct (_ || _); repeat constructor.
Qed.

(** Typing [print(3)] into the second of two tabs. *)
Lemma typed_text_is_run_witness :
  Tabs.activeFileIndex twoTabs < length (Tabs.files twoTabs)
  /\ currentCodeOf
       (withTabs (editing (lit "")) (editor_onChange (Some (lit "print(3)")) twoTabs))
     = lit "print(3)".
Proof.
  assert (H1 : Tabs.activeFileIndex twoTabs < length (Tabs.files twoTabs))
    by (apply Nat.ltb_lt; reflexivity).
  split; [exact H1|].
  exact (proj1 (typed_text_is_run (always (succeeded (lit "")) None)
                  (editing (lit "")) [] twoTabs (Some (lit "print(3)")) H1)).
Defined.

(** X20.  Edits stay with their file.  Type a text into the active
    file, switch to another tab, type there, and switch back: the
    editor shows the first text again. *)
Theorem edits_stay_with_their_file (st : State) (t : Tabs.t) (j : nat)
    (c d : jsstring) :
  Tabs.activeFileIndex t < length (Tabs.files t) ->
  j < length (Tabs.files t) ->
  j <> Tabs.activeFileIndex t ->
  let i := Tabs.activeFileIndex t in
  let t1 := switchFile j (updateCurrentFileContent c t) in
  let t2 := switchFile i (updateCurrentFileContent d t1) in
  currentCodeOf (withTabs st t1)
  = match nth_error (Tabs.files t) j with
    | Some f => file_content f
    | None => lit ""
    end
  /\ currentCodeOf (withTabs st (updateCurrentFileContent d t1)) = d
  /\ currentCodeOf (withTabs st t2) = c.
Proof.
  intros Hi Hj Hne i t1 t2. split; [|split].
  - unfold currentCodeOf, t1.
    cbn [files activeFileIndex withTabs switchFile updateCurrentFileContent
         Tabs.files Tabs.activeFileIndex].
    rewrite mapIndex_nth. apply Nat.eqb_neq in Hne. rewrite Hne.
    destruct (nth_error (Tabs.files t) j); [apply orElse_empty|reflexivity].
  - apply currentCodeOf_updateCurrentFileContent. unfold t1.
    cbn [switchFile updateCurrentFileContent Tabs.files Tabs.activeFileIndex].
    now rewrite mapIndex_length.
  - unfold currentCodeOf, t2, t1.
    cbn [files activeFileIndex withTabs switchFile updateCurrentFileContent
         Tabs.files Tabs.activeFileIndex].
    rewrite !mapIndex_nth, Nat.eqb_refl.
    assert (E : (i =? j) = false) by (apply Nat.eqb_neq; unfold i; lia).
    rewrite E. fold i.
    destruct (nth_error (Tabs.files t) i) as [f|] eqn:N.
    + cbn. apply orElse_empty.
    + apply nth_error_None in N. unfold i in N. lia.
Qed.

(** Two tabs: typing into the second, then into the first, and back. *)
Lemma edits_stay_with_their_file_witness :
  Tabs.activeFileIndex twoTabs < length (Tabs.files twoTabs)
  /\ 0 < length (Tabs.files twoTabs)
  /\ 0 <> Tabs.activeFileIndex twoTabs
  /\ currentCodeOf
       (withTabs (editing (lit ""))
          (switchFile 1
             (updateCurrentFileContent (lit "y = 4")
                (switchFile 0 (updateCurrentFileContent (lit "x = 3") twoTabs)))))
     = lit "x = 3".
Proof.
  assert (H1 : Tabs.activeFileIndex twoTabs < length (Tabs.files twoTabs))
    by (apply Nat.ltb_lt; reflexivity).
  assert (H0 : 0 < length (Tabs.files twoTabs)) by (apply Nat.ltb_lt; reflexivity).
  assert (Hn : 0 <> Tabs.activeFileIndex twoTabs) by discriminate.
  split; [exact H1|]. split; [exact H0|]. split; [exact Hn|].
  exact (proj2 (proj2 (edits_stay_with_their_file (editing (lit "")) twoTabs 0
                         (lit "x = 3") (lit "y = 4") H1 H0 Hn))).
Defined.

(** ** The name of the notebook *)

Lemma replaceFirst_none s p r :
  includes s p = false -> replaceFirst s p r = s.
Proof.
  induction s as [|c s IH]; cbn [includes replaceFirst]; intros H;
    apply orb_false_iff in H as [H0 H1]; rewrite H0; [reflexivity|].
  now rewrite IH.
Qed.

Lemma replaceFirst_first w x a : forall b r,
  includes (a ++ w) (w ++ [x]) = false ->
  replaceFirst (a ++ (w ++ [x]) ++ b) (w ++ [x]) r = a ++ r ++ b.
Proof.
  induction a as [|c a IH]; intros b r H.
  - cbn [app].
    assert (S : startsWith (w ++ [x]) ((w ++ [x]) ++ b) = true) by apply startsWith_app.
    destruct ((w ++ [x]) ++ b) as [|y l] eqn:E.
    + destruct w; discriminate.
    + cbn [replaceFirst]. rewrite S. f_equal. rewrite <- E.
      now rewrite skipn_app, skipn_all, Nat.sub_diag.
  - pose proof (startsWith_later w x [] (c :: a) b H) as S.
    change ((c :: a) ++ (w ++ [x]) ++ b) with (c :: (a ++ (w ++ [x]) ++ b)) in *.
    cbn [replaceFirst]. rewrite S by discriminate.
    change ((c :: a) ++ r ++ b) with (c :: (a ++ r ++ b)). f_equal. apply IH.
    change ((c :: a) ++ w) with (c :: (a ++ w)) in H. cbn [includes] in H.
    now apply orb_false_iff in H as [_ H].
Qed.

(** X21.  The name of the notebook.  The label of a tab in notebook
    mode and the download name of [saveNotebook] are the file name with
    its first [.py] replaced by [.ipynb], wherever that occurrence is,
    and what follows it is kept; a name without [.py] is not
    changed. *)
Theorem notebookFileName_first_occurrence (name : jsstring) :
  (includes name (lit ".py") = false -> notebookFileName name = name)
  /\ (forall a b,
        name = a ++ lit ".py" ++ b ->
        includes (a ++ lit ".p") (lit ".py") = false ->
        notebookFileName name = a ++ lit ".ipynb" ++ b).
Proof.
  split; [apply replaceFirst_none|].
  intros a b -> H. apply (replaceFirst_first (lit ".p") 121%N a b (lit ".ipynb") H).
Qed.
